(** * A shallow embedding of [slider.js]

    The file models the [Slider] class of [src/slider.js]: the slide-index
    controller ([changeSlide], [nextSlide], [previousSlide]), the private
    change protocol ([#handleChangeSlide]), the auto-play timer
    ([#handleAutoPlay]), the drag handlers bound by [init], and the two
    built-in plugins ([Slider.Pagination], [Slider.Navigation]).

    Conventions.
    - Indices and counts ([currentSlide], [slidesPerView], the number of
      [.slider-slide] elements) are JavaScript numbers holding integers: [Z].
    - Pixel and millisecond quantities are exact rationals [Q]; a pixel
      expression that JavaScript evaluates to [NaN] (an [outerWidth()] of an
      empty selection is [undefined]) is [None].
    - The document holds one [.slider-wrapper], one [.slider-pagination]
      container, one [.slider-button-prev] and one [.slider-button-next].
      Only what the code reads back is state: the slides (their outer
      widths), the children of the pagination container and the two buttons.
      Writes to the wrapper's style are recorded in the trace.
    - Lines 52-68 of [init] (per-slide [flex] and margin declarations, the
      wrapper's negative margins) are static styling that no operation reads
      back; they are not represented.
    - Plugins are the two variants the repository ships. *)

From Stdlib Require Import ZArith QArith List String Ascii Bool Lia Lqa.
Import ListNotations.
Open Scope Z_scope.

(** ** JavaScript values *)

Module JS.

(** Exceptions the modelled code can raise. *)
Inductive Error : Type :=
| RangeError.  (* "Invalid array length" *)

Inductive Result (A : Type) : Type :=
| Ok (a : A)
| Throw (e : Error).
Arguments Ok {A} a.
Arguments Throw {A} e.

Definition bind {A B : Type} (r : Result A) (k : A -> Result B) : Result B :=
  match r with
  | Ok a => k a
  | Throw e => Throw e
  end.

(** A number in pixels; [None] is [NaN]. *)
Definition Px : Type := option Q.

Definition px_lift2 (f : Q -> Q -> Q) (a b : Px) : Px :=
  match a, b with
  | Some x, Some y => Some (f x y)
  | _, _ => None
  end.

Definition px_add : Px -> Px -> Px := px_lift2 Qplus.
Definition px_mul : Px -> Px -> Px := px_lift2 Qmult.
Definition px_div : Px -> Px -> Px := px_lift2 Qdiv.
Definition px_opp (a : Px) : Px := option_map Qopp a.

(** [a > b]; every comparison with [NaN] is false. *)
Definition px_gt (a b : Px) : bool :=
  match a, b with
  | Some x, Some y => negb (Qle_bool x y)
  | _, _ => false
  end.

(** [Array(len)] for a numeric [len]: a fresh array of [len] holes, or a
    [RangeError] when [len] is not an array length (an integer in
    [0, 2^32 - 1]).  The result is the length. *)
Definition Array (len : Z) : Result nat :=
  if (0 <=? len) && (len <? 2 ^ 32) then Ok (Z.to_nat len) else Throw RangeError.

(** [Array.from(a)] turns the holes into [undefined] entries, so that a
    following [forEach] visits every index [0 .. len-1] in order. *)
Definition indices (len : nat) : list nat := seq 0 len.

End JS.
Import JS.

(** ** Strings: class names and selectors *)

(** The characters matched by the regular expression [\s] among the ASCII
    ones: tab, line feed, vertical tab, form feed, carriage return, space. *)
Definition isSpace (c : ascii) : bool :=
  let n := nat_of_ascii c in
  (Nat.eqb n 9 || Nat.eqb n 10 || Nat.eqb n 11 || Nat.eqb n 12
   || Nat.eqb n 13 || Nat.eqb n 32)%bool.

Fixpoint replaceSpaces (s : string) : string :=
  match s with
  | EmptyString => EmptyString
  | String c r => String (if isSpace c then "."%char else c) (replaceSpaces r)
  end.

(** [getSelectorFromClass(cl)]: [`.${cl.replace(/\s/g, '.')}`]. *)
Definition getSelectorFromClass (cl : string) : string :=
  String "."%char (replaceSpaces cl).

(** Splitting at the characters satisfying [sep]; empty pieces are dropped. *)
Fixpoint splitAcc (sep : ascii -> bool) (acc : string) (s : string) : list string :=
  match s with
  | EmptyString => if String.eqb acc EmptyString then [] else [acc]
  | String c r =>
      if sep c
      then (if String.eqb acc EmptyString then [] else [acc]) ++ splitAcc sep EmptyString r
      else splitAcc sep (acc ++ String c EmptyString)%string r
  end.

(** The class tokens of a [class] attribute (also how jQuery's [addClass] and
    [removeClass] read their argument). *)
Definition classTokens (s : string) : list string := splitAcc isSpace EmptyString s.

(** The classes required by a compound class selector [.a.b]. *)
Definition selectorClasses (sel : string) : list string :=
  splitAcc (fun c => Ascii.eqb c "."%char) EmptyString sel.

(** ** The document *)

(** Click handlers are closures over the slider; each is represented by the
    place that creates it and the values it captures. *)
Inductive Handler : Type :=
| PaginationClick (itemClass itemActiveClass : string) (i : nat)
| NavigationNextClick
| NavigationPrevClick.

Record Element : Type := mkElement {
  classes : list string;       (* class tokens *)
  label : option Z;            (* text: a number, or empty *)
  clicks : list Handler        (* bound click handlers, in binding order *)
}.

Definition hasClass (c : string) (e : Element) : bool :=
  existsb (String.eqb c) (classes e).

Definition matches (sel : string) (e : Element) : bool :=
  forallb (fun c => hasClass c e) (selectorClasses sel).

Definition addClass1 (c : string) (e : Element) : Element :=
  if hasClass c e then e
  else mkElement (classes e ++ [c]) (label e) (clicks e).

Definition removeClass1 (c : string) (e : Element) : Element :=
  mkElement (filter (fun x => negb (String.eqb c x)) (classes e)) (label e) (clicks e).

Definition addClass (cl : string) (e : Element) : Element :=
  fold_left (fun e c => addClass1 c e) (classTokens cl) e.

Definition removeClass (cl : string) (e : Element) : Element :=
  fold_left (fun e c => removeClass1 c e) (classTokens cl) e.

Definition click (h : Handler) (e : Element) : Element :=
  mkElement (classes e) (label e) (clicks e ++ [h]).

Record Dom : Type := mkDom {
  slides : list Q;             (* outerWidth() of each .slider-slide, in order *)
  pagination : list Element;   (* children of .slider-pagination *)
  buttonPrev : Element;        (* .slider-button-prev *)
  buttonNext : Element         (* .slider-button-next *)
}.

(** [$('.slider-slide').length] *)
Definition slideCount (d : Dom) : Z := Z.of_nat (List.length (slides d)).

(** [$('.slider-slide').outerWidth()]: the outer width (padding and border,
    not the margins) of the first slide; [undefined] without slides. *)
Definition outerWidth (d : Dom) : Px := hd_error (slides d).

Definition setPagination (els : list Element) (d : Dom) : Dom :=
  mkDom (slides d) els (buttonPrev d) (buttonNext d).

Definition setButtonPrev (e : Element) (d : Dom) : Dom :=
  mkDom (slides d) (pagination d) e (buttonNext d).

Definition setButtonNext (e : Element) (d : Dom) : Dom :=
  mkDom (slides d) (pagination d) (buttonPrev d) e.

(** [$(sel).each((i, el) => f i el)] over the pagination children: the
    matched elements are numbered from [i] in document order. *)
Fixpoint eachFrom (sel : string) (f : nat -> Element -> Element) (i : nat)
    (els : list Element) : list Element :=
  match els with
  | [] => []
  | e :: r =>
      if matches sel e
      then f i e :: eachFrom sel f (S i) r
      else e :: eachFrom sel f i r
  end.

Definition each (sel : string) (f : nat -> Element -> Element) (d : Dom) : Dom :=
  setPagination (eachFrom sel f 0 (pagination d)) d.

(** ** The slider *)

Inductive Plugin : Type :=
| Pagination (itemClass itemActiveClass : string) (numbering clickable : bool)
| Navigation (buttonDisabledClass : string).

(** [Slider.Pagination()] and [Slider.Navigation()] called without argument. *)
Definition defaultPagination : Plugin :=
  Pagination "slider-pagination-item" "slider-pagination-item--active" true true.

Definition defaultNavigation : Plugin := Navigation "slider-button--disabled".

Record Slider : Type := mkSlider {
  slidesPerView : Z;
  defaultIndex : Z;
  spaceBetween : Q;
  speed : Q;
  currentSlide : Z;
  autoPlay : bool;
  duration : Q;
  loop : bool;
  plugins : list Plugin;
  direction : string;
  draggable : bool
}.

Definition setCurrentSlide (i : Z) (s : Slider) : Slider :=
  mkSlider (slidesPerView s) (defaultIndex s) (spaceBetween s) (speed s) i
    (autoPlay s) (duration s) (loop s) (plugins s) (direction s) (draggable s).

Definition setAutoPlay (b : bool) (s : Slider) : Slider :=
  mkSlider (slidesPerView s) (defaultIndex s) (spaceBetween s) (speed s)
    (currentSlide s) b (duration s) (loop s) (plugins s) (direction s) (draggable s).


(** The value written into the wrapper's [transform]. *)
Inductive Transform : Type :=
| TranslateNeg (v : Px)   (* `translateX(-${v}px)` *)
| TranslatePos (v : Px).  (* `translateX(${v}px)` *)

(** Effects, in the order the code performs them. *)
Inductive Event : Type :=
| EvTransition (ms : Q)                  (* wrapper: transition: transform ease-out ms *)
| EvTransform (t : Transform)            (* wrapper: transform *)
| EvInit (k : nat) (p : Plugin)          (* plugins[k].init(slider) is called *)
| EvChange (k : nat) (p : Plugin)        (* plugins[k].change(slider) is called *)
| EvAppend (cl : string) (lbl : option Z)  (* a span appended to .slider-pagination *)
| EvTimeout (ms : Q).                    (* setTimeout(autoplay callback, ms) *)

(** The variables [isPressed], [startPos], [distance] of [init]. *)
Record Drag : Type := mkDrag {
  isPressed : bool;
  startPos : Q;
  distance : Q
}.

Record World : Type := mkWorld {
  slider : Slider;
  dom : Dom;
  drag : option Drag;        (* [Some] once the drag handlers are bound *)
  trace : list Event
}.

Definition withSlider (f : Slider -> Slider) (w : World) : World :=
  mkWorld (f (slider w)) (dom w) (drag w) (trace w).

Definition withDom (f : Dom -> Dom) (w : World) : World :=
  mkWorld (slider w) (f (dom w)) (drag w) (trace w).

Definition withDrag (g : option Drag) (w : World) : World :=
  mkWorld (slider w) (dom w) g (trace w).

Definition emit (e : Event) (w : World) : World :=
  mkWorld (slider w) (dom w) (drag w) (trace w ++ [e]).

(** [($('.slider-slide').outerWidth() + this.spaceBetween) * this.currentSlide] *)
Definition restingOffset (w : World) : Px :=
  px_mul (px_add (outerWidth (dom w)) (Some (spaceBetween (slider w))))
         (Some (inject_Z (currentSlide (slider w)))).

(** [this.currentSlide < $('.slider-slide').length - this.slidesPerView] *)
Definition beforeLast (w : World) : bool :=
  currentSlide (slider w) <? slideCount (dom w) - slidesPerView (slider w).

(** ** The built-in plugins *)

(** [changeActiveState(slider)] of [Slider.Pagination]. *)
Definition changeActiveState (itemClass itemActiveClass : string) (w : World) : World :=
  withDom
    (each (getSelectorFromClass itemClass)
       (fun i el =>
          if currentSlide (slider w) =? Z.of_nat i
          then addClass itemActiveClass el
          else removeClass itemActiveClass el))
    w.

(** [changeDisabledState(slider)] of [Slider.Navigation]. *)
Definition changeDisabledState (buttonDisabledClass : string) (w : World) : World :=
  if negb (loop (slider w)) then
    let w1 :=
      if currentSlide (slider w) =? 0
      then withDom (fun d => setButtonPrev (addClass buttonDisabledClass (buttonPrev d)) d) w
      else withDom (fun d => setButtonPrev (removeClass buttonDisabledClass (buttonPrev d)) d) w in
    if currentSlide (slider w1) =? slideCount (dom w1) - slidesPerView (slider w1)
    then withDom (fun d => setButtonNext (addClass buttonDisabledClass (buttonNext d)) d) w1
    else withDom (fun d => setButtonNext (removeClass buttonDisabledClass (buttonNext d)) d) w1
  else w.

(** [plugin.change(this)] *)
Definition pluginChange (p : Plugin) (w : World) : World :=
  match p with
  | Pagination itemClass itemActiveClass _ _ => changeActiveState itemClass itemActiveClass w
  | Navigation buttonDisabledClass => changeDisabledState buttonDisabledClass w
  end.

(** ** The slide-index controller *)

(** [for (let plugin of this.plugins) plugin.change(this)], from position [k]. *)
Fixpoint changeAll (ps : list Plugin) (k : nat) (w : World) : World :=
  match ps with
  | [] => w
  | p :: r => changeAll r (S k) (pluginChange p (emit (EvChange k p) w))
  end.

(** [#handleChangeSlide()]: the change protocol. *)
Definition handleChangeSlide (w : World) : World :=
  let w1 := emit (EvTransition (speed (slider w))) w in
  let w2 := emit (EvTransform (TranslateNeg (restingOffset w1))) w1 in
  changeAll (plugins (slider w2)) 0 w2.

(** [changeSlide(index)] *)
Definition changeSlide (index : Z) (w : World) : World :=
  handleChangeSlide (withSlider (setCurrentSlide index) w).

(** [nextSlide()] *)
Definition nextSlide (w : World) : World :=
  let w1 :=
    if loop (slider w) then
      if beforeLast w
      then withSlider (setCurrentSlide (currentSlide (slider w) + 1)) w
      else withSlider (setCurrentSlide 0) w
    else
      if beforeLast w
      then withSlider (setCurrentSlide (currentSlide (slider w) + 1)) w
      else w in
  handleChangeSlide w1.

(** [previousSlide()] *)
Definition previousSlide (w : World) : World :=
  let w1 :=
    if loop (slider w) then
      if currentSlide (slider w) >? 0
      then withSlider (setCurrentSlide (currentSlide (slider w) - 1)) w
      else withSlider
             (setCurrentSlide (slideCount (dom w) - slidesPerView (slider w))) w
    else
      if currentSlide (slider w) >? 0
      then withSlider (setCurrentSlide (currentSlide (slider w) - 1)) w
      else w in
  handleChangeSlide w1.

(** ** Auto-play *)

(** [#handleAutoPlay()]: arms one timeout of [this.duration] milliseconds. *)
Definition handleAutoPlay (w : World) : World :=
  emit (EvTimeout (duration (slider w))) w.

(** The callback handed to [setTimeout]: what one firing of the timer does. *)
Definition autoPlayFire (w : World) : World :=
  if autoPlay (slider w) then
    let w1 := if beforeLast w then nextSlide w else changeSlide 0 w in
    handleAutoPlay w1
  else w.

(** ** Plugin initialisation *)

(** [$('.slider-pagination').append(`<span class='${itemClass}'>...</span>`)]
    for the index [i]. *)
Definition appendItem (itemClass : string) (numbering : bool) (i : nat) (w : World) : World :=
  let lbl := if numbering then Some (Z.of_nat i + 1) else None in
  emit (EvAppend itemClass lbl)
    (withDom
       (fun d => setPagination (pagination d ++ [mkElement (classTokens itemClass) lbl []]) d)
       w).

(** The callback of the [forEach] of [Pagination.init]: the span is appended,
    then [changeActiveState] runs. *)
Definition iteration (itemClass itemActiveClass : string) (numbering : bool)
    (w : World) (i : nat) : World :=
  changeActiveState itemClass itemActiveClass (appendItem itemClass numbering i w).

Definition paginationInit (itemClass itemActiveClass : string)
    (numbering clickable : bool) (w : World) : Result World :=
  bind (Array (slideCount (dom w) - slidesPerView (slider w) + 1)) (fun len =>
    let w1 := fold_left (iteration itemClass itemActiveClass numbering) (indices len) w in
    Ok (if clickable
        then withDom
               (each (getSelectorFromClass itemClass)
                  (fun i el => click (PaginationClick itemClass itemActiveClass i) el))
               w1
        else w1)).

Definition navigationInit (buttonDisabledClass : string) (w : World) : Result World :=
  let w1 := withDom (fun d => setButtonNext (click NavigationNextClick (buttonNext d)) d) w in
  let w2 := withDom (fun d => setButtonPrev (click NavigationPrevClick (buttonPrev d)) d) w1 in
  Ok (changeDisabledState buttonDisabledClass w2).

(** [plugin.init(this)] *)
Definition pluginInit (p : Plugin) (w : World) : Result World :=
  match p with
  | Pagination itemClass itemActiveClass numbering clickable =>
      paginationInit itemClass itemActiveClass numbering clickable w
  | Navigation buttonDisabledClass => navigationInit buttonDisabledClass w
  end.

(** [for (let plugin of this.plugins) plugin.init(this)], from position [k];
    an exception ends the loop. *)
Fixpoint initAll (ps : list Plugin) (k : nat) (w : World) : Result World :=
  match ps with
  | [] => Ok w
  | p :: r => bind (pluginInit p (emit (EvInit k p) w)) (initAll r (S k))
  end.

(** What a click handler does when its element is clicked. *)
Definition runHandler (h : Handler) (w : World) : World :=
  match h with
  | PaginationClick itemClass itemActiveClass i =>
      let w1 := changeSlide (Z.of_nat i) w in
      let w2 := changeActiveState itemClass itemActiveClass w1 in
      if autoPlay (slider w2) then withSlider (setAutoPlay false) w2 else w2
  | NavigationNextClick => nextSlide w
  | NavigationPrevClick => previousSlide w
  end.

(** ** Dragging *)

(** Which branch the [mouseup] handler takes. *)
Inductive Release : Type :=
| CallNext       (* this.nextSlide() *)
| CallPrevious   (* this.previousSlide() *)
| SnapBack.      (* the wrapper's transform is set back *)

Definition releaseDecision (w : World) (g : Drag) : Release :=
  let slideWidth := outerWidth (dom w) in
  if px_gt (Some (distance g)) (px_div slideWidth (Some 3%Q))
     && (loop (slider w) || beforeLast w)
  then CallNext
  else if px_gt (Some (- distance g)%Q) (px_div slideWidth (Some 3%Q))
          && (loop (slider w) || (currentSlide (slider w) >? 0))
  then CallPrevious
  else SnapBack.

(** [$('.slider-wrapper').mousedown(e => ...)] with [e.pageX = pageX]. *)
Definition mousedown (pageX : Q) (w : World) : World :=
  match drag w with
  | None => w
  | Some g => withDrag (Some (mkDrag true pageX (distance g))) w
  end.

(** [$('.slider-wrapper').mousemove(e => ...)] *)
Definition mousemove (pageX : Q) (w : World) : World :=
  match drag w with
  | None => w
  | Some g =>
      if negb (isPressed g) then w
      else
        let g' := mkDrag (isPressed g) (startPos g) (startPos g - pageX)%Q in
        emit (EvTransform
                (TranslatePos (px_opp (px_add (restingOffset w) (Some (distance g'))))))
             (withDrag (Some g') w)
  end.

(** [$(window).mouseup(() => ...)] *)
Definition mouseup (w : World) : World :=
  match drag w with
  | None => w
  | Some g =>
      let w1 :=
        match releaseDecision w g with
        | CallNext => nextSlide w
        | CallPrevious => previousSlide w
        | SnapBack => emit (EvTransform (TranslateNeg (restingOffset w))) w
        end in
      withDrag (Some (mkDrag false 0 0)) w1
  end.

(** ** Construction *)

(** [init()] *)
Definition init (w : World) : Result World :=
  let w1 := emit (EvTransform (TranslateNeg (restingOffset w))) w in
  let w2 := if draggable (slider w1)
            then withDrag (Some (mkDrag false 0 0)) w1
            else w1 in
  bind (initAll (plugins (slider w2)) 0 w2) (fun w3 =>
    Ok (if autoPlay (slider w3) then handleAutoPlay w3 else w3)).

(** The constructor's option record. *)
Record Options : Type := mkOptions {
  optSlidesPerView : Z;
  optDefaultIndex : Z;
  optSpaceBetween : Q;
  optSpeed : Q;
  optPlugins : list Plugin;
  optAutoPlay : bool;
  optDuration : Q;
  optLoop : bool;
  optDirection : string;
  optDraggable : bool
}.

(** The defaults of the constructor's parameter. *)
Definition defaultOptions : Options :=
  mkOptions 3 0 20%Q 500%Q [] false 5000%Q false "horizontal" true.

(** [new Slider(options)] on the document [d]. *)
Definition newSlider (o : Options) (d : Dom) : Result World :=
  init (mkWorld
          (mkSlider (optSlidesPerView o) (optDefaultIndex o) (optSpaceBetween o)
             (optSpeed o) (optDefaultIndex o) (optAutoPlay o) (optDuration o)
             (optLoop o) (optPlugins o) (optDirection o) (optDraggable o))
          d None []).

(** ** Observations on a run *)

(** The last resting index when not looping. *)
Definition lastIndex (w : World) : Z :=
  Z.max 0 (slideCount (dom w) - slidesPerView (slider w)).

Definition inRange (w : World) : Prop :=
  0 <= currentSlide (slider w) <= lastIndex w.

(** A sequence of calls of the two stepping operations. *)
Inductive Call : Type :=
| Next
| Previous.

Definition call (c : Call) (w : World) : World :=
  match c with
  | Next => nextSlide w
  | Previous => previousSlide w
  end.

Definition run (cs : list Call) (w : World) : World :=
  fold_left (fun w c => call c w) cs w.

(** The [EvChange] events of notifying [ps], the first one at position [k]. *)
Fixpoint changeEvents (ps : list Plugin) (k : nat) : list Event :=
  match ps with
  | [] => []
  | p :: r => EvChange k p :: changeEvents r (S k)
  end.

(** What the change protocol adds to the trace when the index is [c]. *)
Definition protocolEvents (c : Z) (w : World) : list Event :=
  [EvTransition (speed (slider w));
   EvTransform
     (TranslateNeg
        (px_mul (px_add (outerWidth (dom w)) (Some (spaceBetween (slider w))))
                (Some (inject_Z c))))]
  ++ changeEvents (plugins (slider w)) 0.


(** The number of spans a trace records as appended. *)
Fixpoint appendCount (t : list Event) : nat :=
  match t with
  | [] => 0%nat
  | EvAppend _ _ :: r => S (appendCount r)
  | _ :: r => appendCount r
  end.

(** The index [nextSlide] and [previousSlide] choose. *)
Definition nextIndex (w : World) : Z :=
  if currentSlide (slider w) <? slideCount (dom w) - slidesPerView (slider w)
  then currentSlide (slider w) + 1
  else if loop (slider w) then 0 else currentSlide (slider w).

Definition previousIndex (w : World) : Z :=
  if currentSlide (slider w) >? 0
  then currentSlide (slider w) - 1
  else if loop (slider w)
       then slideCount (dom w) - slidesPerView (slider w)
       else currentSlide (slider w).

(** [($('.slider-slide').outerWidth() + this.spaceBetween)]: the size of one
    slide together with the space between two slides, the step by which
    [restingOffset] moves the wrapper per index. *)
Definition slideStep (w : World) : Px :=
  px_add (outerWidth (dom w)) (Some (spaceBetween (slider w))).

(** ** Sample documents and sliders *)

Definition blank : Element := mkElement [] None [].

(** [n] slides, each 300px wide; no markers yet. *)
Definition sampleDom (n : nat) : Dom := mkDom (repeat 300%Q n) [] blank blank.

(** A slider over [sampleDom n] with [spaceBetween = 20], idle drag handlers
    and an empty trace. *)
Definition sampleWorld (n : nat) (perView current : Z) (looping : bool)
    (ps : list Plugin) : World :=
  mkWorld (mkSlider perView 0 20%Q 500%Q current false 5000%Q looping ps "horizontal" true)
          (sampleDom n) (Some (mkDrag false 0 0)) [].

(** ** Events delivered by the browser *)

(** The events for which the code binds a handler.  A [TimerFire] is only
    delivered while a timeout is pending; the properties below that hold for
    every sequence of inputs hold for those in particular. *)
Inductive Input : Type :=
| ClickMarker (k : nat)      (* a click on the k-th child of .slider-pagination *)
| ClickNext                  (* a click on .slider-button-next *)
| ClickPrevious              (* a click on .slider-button-prev *)
| MouseDown (pageX : Q)      (* mousedown on .slider-wrapper *)
| MouseMove (pageX : Q)      (* mousemove on .slider-wrapper *)
| MouseUp                    (* mouseup on window *)
| TimerFire.                 (* the auto-play timeout elapses *)

(** The handlers bound to the clicked element run in binding order. *)
Definition runHandlers (hs : list Handler) (w : World) : World :=
  fold_left (fun w h => runHandler h w) hs w.

Definition step (i : Input) (w : World) : World :=
  match i with
  | ClickMarker k =>
      match nth_error (pagination (dom w)) k with
      | Some e => runHandlers (clicks e) w
      | None => w
      end
  | ClickNext => runHandlers (clicks (buttonNext (dom w))) w
  | ClickPrevious => runHandlers (clicks (buttonPrev (dom w))) w
  | MouseDown pageX => mousedown pageX w
  | MouseMove pageX => mousemove pageX w
  | MouseUp => mouseup w
  | TimerFire => autoPlayFire w
  end.

Definition steps (inputs : list Input) (w : World) : World :=
  fold_left (fun w i => step i w) inputs w.

Definition isMouse (i : Input) : bool :=
  match i with
  | MouseDown _ | MouseMove _ | MouseUp => true
  | _ => false
  end.

(** The fields of the slider that only the constructor assigns: everything
    but [currentSlide] and [autoPlay]. *)
Definition config (s : Slider) : Slider := setAutoPlay false (setCurrentSlide 0 s).

(** The click handlers bound in the document. *)
Definition handlersOf (d : Dom) : list (list Handler) :=
  clicks (buttonPrev d) :: clicks (buttonNext d) :: map clicks (pagination d).

(** The number of timeouts a trace records as armed. *)
Fixpoint timeouts (t : list Event) : nat :=
  match t with
  | [] => 0%nat
  | EvTimeout _ :: r => S (timeouts r)
  | _ :: r => timeouts r
  end.

(** The plugins whose [init] a trace records, with their positions. *)
Fixpoint initialised (t : list Event) : list (nat * Plugin) :=
  match t with
  | [] => []
  | EvInit k p :: r => (k, p) :: initialised r
  | _ :: r => initialised r
  end.

Definition isPagination (p : Plugin) : bool :=
  match p with
  | Pagination _ _ _ _ => true
  | Navigation _ => false
  end.

(** A handler that cannot move the index above [m]. *)
Definition handlerWithin (m : Z) (h : Handler) : Prop :=
  match h with
  | PaginationClick _ _ i => Z.of_nat i <= m
  | NavigationNextClick | NavigationPrevClick => True
  end.

Definition handlersWithin (m : Z) (d : Dom) : Prop :=
  Forall (Forall (handlerWithin m)) (handlersOf d).

(** The marker that [Pagination.init] makes for the index [i] when the
    current index is [c], for class names of one token each. *)
Definition marker (itemClass itemActiveClass : string) (numbering clickable : bool)
    (c : Z) (i : nat) : Element :=
  mkElement
    (if c =? Z.of_nat i then [itemClass; itemActiveClass] else [itemClass])
    (if numbering then Some (Z.of_nat i + 1) else None)
    (if clickable then [PaginationClick itemClass itemActiveClass i] else []).

Definition markers (itemClass itemActiveClass : string) (numbering clickable : bool)
    (c : Z) (n : nat) : list Element :=
  map (marker itemClass itemActiveClass numbering clickable c) (seq 0 n).



(** A whole drag: press at [x0], move to [x1], release. *)
Definition gesture (x0 x1 : Q) (w : World) : World :=
  mouseup (mousemove x1 (mousedown x0 w)).


(** What no handler touches between [w] and [w']: the configuration, the
    slides, the bound handlers; unbound drag handlers stay unbound; and once
    [autoPlay] is off it stays off and no timeout is armed. *)
Definition stable (w w' : World) : Prop :=
  config (slider w') = config (slider w)
  /\ slides (dom w') = slides (dom w)
  /\ handlersOf (dom w') = handlersOf (dom w)
  /\ (drag w = None -> drag w' = None)
  /\ (autoPlay (slider w) = false ->
      autoPlay (slider w') = false /\ timeouts (trace w') = timeouts (trace w)).

(** The index is a resting index not above [m], [m] is the last resting
    index, no bound handler leads above [m], and a looping slider has at
    least [slidesPerView] slides. *)
Definition within (m : Z) (w : World) : Prop :=
  lastIndex w = m
  /\ (loop (slider w) = true -> slidesPerView (slider w) <= slideCount (dom w))
  /\ 0 <= currentSlide (slider w) <= m
  /\ handlersWithin m (dom w).

(** The events of plugin initialisation: an [init] call, an appended span. *)
Definition isInitEvent (e : Event) : bool :=
  match e with
  | EvInit _ _ | EvAppend _ _ => true
  | _ => false
  end.


(** [isPressed], when the drag handlers are bound. *)
Definition pressed (w : World) : bool :=
  match drag w with
  | Some g => isPressed g
  | None => false
  end.

(** While the button is up, [startPos] and [distance] are [0]. *)
Definition dragSettled (w : World) : Prop :=
  match drag w with
  | Some g => isPressed g = false -> startPos g = 0%Q /\ distance g = 0%Q
  | None => True
  end.

(** The number of Navigation plugins in a plugin list. *)
Definition navigationCount (ps : list Plugin) : nat :=
  List.length (filter (fun p => negb (isPagination p)) ps).

(** * Properties *)

(** ** Frame lemmas: what the plugins leave alone *)

Lemma withSlider_current_id (w : World) :
  withSlider (setCurrentSlide (currentSlide (slider w))) w = w.
Proof. destruct w as [[] d g t]; reflexivity. Qed.

Lemma eachFrom_length sel f : forall els i,
  List.length (eachFrom sel f i els) = List.length els.
Proof.
  induction els as [|e r IH]; intros i; simpl; [reflexivity|].
  destruct (matches sel e); simpl; now rewrite IH.
Qed.

Lemma changeActiveState_frame ic iac w :
  slider (changeActiveState ic iac w) = slider w
  /\ slides (dom (changeActiveState ic iac w)) = slides (dom w)
  /\ drag (changeActiveState ic iac w) = drag w
  /\ trace (changeActiveState ic iac w) = trace w.
Proof. unfold changeActiveState; simpl; auto. Qed.

Lemma changeActiveState_length ic iac w :
  List.length (pagination (dom (changeActiveState ic iac w)))
  = List.length (pagination (dom w)).
Proof. unfold changeActiveState; simpl. apply eachFrom_length. Qed.

Lemma changeDisabledState_frame c w :
  slider (changeDisabledState c w) = slider w
  /\ slides (dom (changeDisabledState c w)) = slides (dom w)
  /\ drag (changeDisabledState c w) = drag w
  /\ trace (changeDisabledState c w) = trace w.
Proof.
  unfold changeDisabledState.
  destruct (negb (loop (slider w))); [|auto].
  destruct (currentSlide (slider w) =? 0); simpl;
    match goal with |- context [if ?b then _ else _] => destruct b end;
    simpl; auto.
Qed.

Lemma pluginChange_frame p w :
  slider (pluginChange p w) = slider w
  /\ slides (dom (pluginChange p w)) = slides (dom w)
  /\ drag (pluginChange p w) = drag w
  /\ trace (pluginChange p w) = trace w.
Proof.
  destruct p as [ic iac nb cl | c]; simpl;
    [apply (changeActiveState_frame ic iac w) | apply (changeDisabledState_frame c w)].
Qed.

Lemma changeAll_frame : forall ps k w,
  slider (changeAll ps k w) = slider w
  /\ slides (dom (changeAll ps k w)) = slides (dom w)
  /\ drag (changeAll ps k w) = drag w
  /\ trace (changeAll ps k w) = trace w ++ changeEvents ps k.
Proof.
  induction ps as [|p r IH]; intros k w; simpl.
  - rewrite app_nil_r; auto.
  - destruct (IH (S k) (pluginChange p (emit (EvChange k p) w))) as (Hs & Hd & Hg & Ht).
    destruct (pluginChange_frame p (emit (EvChange k p) w)) as (Hs' & Hd' & Hg' & Ht').
    rewrite Hs, Hd, Hg, Ht, Hs', Hd', Hg', Ht'; simpl.
    rewrite <- app_assoc; auto.
Qed.

Lemma handleChangeSlide_frame w :
  slider (handleChangeSlide w) = slider w
  /\ slides (dom (handleChangeSlide w)) = slides (dom w)
  /\ drag (handleChangeSlide w) = drag w
  /\ trace (handleChangeSlide w)
     = trace w ++ protocolEvents (currentSlide (slider w)) w.
Proof.
  unfold handleChangeSlide, protocolEvents.
  match goal with |- context [changeAll ?ps ?k ?x] =>
    destruct (changeAll_frame ps k x) as (Hs & Hd & Hg & Ht) end.
  rewrite Hs, Hd, Hg, Ht; simpl.
  repeat split; try reflexivity.
  rewrite <- !app_assoc; reflexivity.
Qed.

Lemma slideCount_slides d d' : slides d' = slides d -> slideCount d' = slideCount d.
Proof. unfold slideCount; now intros ->. Qed.

Lemma outerWidth_slides d d' : slides d' = slides d -> outerWidth d' = outerWidth d.
Proof. unfold outerWidth; now intros ->. Qed.

Lemma nextSlide_changeSlide w : nextSlide w = changeSlide (nextIndex w) w.
Proof.
  unfold nextSlide, changeSlide, nextIndex, beforeLast.
  destruct (loop (slider w));
    destruct (currentSlide (slider w) <? slideCount (dom w) - slidesPerView (slider w));
    try reflexivity.
  now rewrite withSlider_current_id.
Qed.

Lemma previousSlide_changeSlide w : previousSlide w = changeSlide (previousIndex w) w.
Proof.
  unfold previousSlide, changeSlide, previousIndex.
  destruct (loop (slider w)); destruct (currentSlide (slider w) >? 0);
    try reflexivity.
  now rewrite withSlider_current_id.
Qed.

Lemma changeSlide_spec index w :
  slider (changeSlide index w) = setCurrentSlide index (slider w)
  /\ slides (dom (changeSlide index w)) = slides (dom w)
  /\ drag (changeSlide index w) = drag w
  /\ trace (changeSlide index w) = trace w ++ protocolEvents index w.
Proof.
  unfold changeSlide.
  destruct (handleChangeSlide_frame (withSlider (setCurrentSlide index) w))
    as (Hs & Hd & Hg & Ht).
  rewrite Hs, Hd, Hg, Ht. repeat split; reflexivity.
Qed.

Lemma call_frame c w :
  slidesPerView (slider (call c w)) = slidesPerView (slider w)
  /\ loop (slider (call c w)) = loop (slider w)
  /\ slideCount (dom (call c w)) = slideCount (dom w).
Proof.
  destruct c; simpl;
    [rewrite nextSlide_changeSlide | rewrite previousSlide_changeSlide];
    match goal with |- context [changeSlide ?i ?x] =>
      destruct (changeSlide_spec i x) as (Hs & Hd & _ & _) end;
    rewrite Hs, (slideCount_slides _ _ Hd); simpl; auto.
Qed.


(** ** The stepping operations *)

Lemma call_index c w :
  currentSlide (slider (call c w))
  = match c with Next => nextIndex w | Previous => previousIndex w end.
Proof.
  destruct c; simpl;
    [rewrite nextSlide_changeSlide | rewrite previousSlide_changeSlide];
    match goal with |- context [changeSlide ?i ?x] =>
      destruct (changeSlide_spec i x) as (Hs & _) end;
    now rewrite Hs.
Qed.

Lemma call_inRange c w :
  loop (slider w) = false -> inRange w -> inRange (call c w).
Proof.
  unfold inRange, lastIndex. intros Hl Hr.
  destruct (call_frame c w) as (Hv & _ & Hn).
  rewrite Hv, Hn, call_index.
  destruct c; unfold nextIndex, previousIndex; rewrite Hl.
  - destruct (Z.ltb_spec (currentSlide (slider w))
                (slideCount (dom w) - slidesPerView (slider w))); lia.
  - destruct (Z.gtb_spec (currentSlide (slider w)) 0); lia.
Qed.

(** On an in-range state the guard [currentSlide < slideCount - slidesPerView]
    of [nextSlide], of the auto-play callback and of the [mouseup] handler
    says that the index is not the last resting one. *)
Lemma beforeLast_not_last w :
  inRange w -> (beforeLast w = true <-> currentSlide (slider w) <> lastIndex w).
Proof.
  unfold inRange, lastIndex, beforeLast. intros Hr.
  rewrite Z.ltb_lt. lia.
Qed.

(** C1 (as amended).  Without looping, from a state with
    [0 <= currentSlide <= max(0, slideCount - slidesPerView)], every sequence
    of [nextSlide()] and [previousSlide()] calls ends in a state with
    [0 <= currentSlide <= max(0, slideCount - slidesPerView)], for the same
    slide count and [slidesPerView]: no call produces an index above
    [max(0, slideCount - slidesPerView)] or below [0]. *)
Theorem nonloop_range_preserved : forall (calls : list Call) (w : World),
  loop (slider w) = false ->
  0 <= currentSlide (slider w) <= Z.max 0 (slideCount (dom w) - slidesPerView (slider w)) ->
  0 <= currentSlide (slider (run calls w))
    <= Z.max 0 (slideCount (dom w) - slidesPerView (slider w))
  /\ slideCount (dom (run calls w)) = slideCount (dom w)
  /\ slidesPerView (slider (run calls w)) = slidesPerView (slider w).
Proof.
  induction calls as [|c r IH]; intros w Hl Hr; simpl; [auto|].
  destruct (call_frame c w) as (Hv & Hl' & Hn).
  assert (Hr' : inRange (call c w)) by (apply call_inRange; assumption).
  unfold inRange, lastIndex in Hr'.
  destruct (IH (call c w)) as (H1 & H2 & H3); [congruence | exact Hr' |].
  unfold run in *. rewrite H2, H3, Hn, Hv in *. auto.
Qed.

Lemma nonloop_range_preserved_witness :
  let w := sampleWorld 6 3 0 false [] in
  let calls := [Next; Next; Next; Next; Previous; Next; Next] in
  loop (slider w) = false
  /\ 0 <= currentSlide (slider w)
       <= Z.max 0 (slideCount (dom w) - slidesPerView (slider w))
  /\ 0 <= currentSlide (slider (run calls w))
       <= Z.max 0 (slideCount (dom w) - slidesPerView (slider w)).
Proof.
  intros w calls.
  assert (Hl : loop (slider w) = false) by reflexivity.
  assert (Hr : 0 <= currentSlide (slider w)
               <= Z.max 0 (slideCount (dom w) - slidesPerView (slider w)))
    by (vm_compute; split; discriminate).
  split; [exact Hl | split; [exact Hr |]].
  exact (proj1 (nonloop_range_preserved calls w Hl Hr)).
Defined.

(** C1, as stated, fails when there are fewer slides than [slidesPerView]:
    with one slide and [slidesPerView = 3] the index [0] is in range, and
    after [nextSlide()] it is still [0], which is greater than
    [slideCount - slidesPerView = -2]. *)
Lemma next_above_negative_bound :
  let w := sampleWorld 1 3 0 false [] in
  loop (slider w) = false
  /\ 0 <= currentSlide (slider w)
       <= Z.max 0 (slideCount (dom w) - slidesPerView (slider w))
  /\ currentSlide (slider (nextSlide w))
       > slideCount (dom (nextSlide w)) - slidesPerView (slider (nextSlide w)).
Proof.
  vm_compute. repeat split; discriminate.
Qed.


(** C2.  [nextSlide()] adds one to [currentSlide] when
    [currentSlide < slideCount - slidesPerView]; otherwise it sets it to [0]
    when looping and leaves it unchanged when not.  In every case it then
    runs the change protocol on the resulting index: the wrapper's transition
    and transform are written, then every plugin is notified. *)
Theorem nextSlide_spec : forall w : World,
  let c := currentSlide (slider w) in
  let c' := if c <? slideCount (dom w) - slidesPerView (slider w) then c + 1
            else if loop (slider w) then 0 else c in
  currentSlide (slider (nextSlide w)) = c'
  /\ nextSlide w = handleChangeSlide (withSlider (setCurrentSlide c') w)
  /\ trace (nextSlide w) = trace w ++ protocolEvents c' w.
Proof.
  intros w c c'.
  change c' with (nextIndex w).
  rewrite nextSlide_changeSlide.
  destruct (changeSlide_spec (nextIndex w) w) as (Hs & _ & _ & Ht).
  rewrite Hs, Ht. repeat split; reflexivity.
Qed.

(** C3.  [previousSlide()] subtracts one from [currentSlide] when
    [currentSlide > 0]; otherwise it sets it to [slideCount - slidesPerView]
    when looping and leaves it unchanged when not.  In every case it then
    runs the change protocol on the resulting index. *)
Theorem previousSlide_spec : forall w : World,
  let c := currentSlide (slider w) in
  let c' := if c >? 0 then c - 1
            else if loop (slider w)
                 then slideCount (dom w) - slidesPerView (slider w)
                 else c in
  currentSlide (slider (previousSlide w)) = c'
  /\ previousSlide w = handleChangeSlide (withSlider (setCurrentSlide c') w)
  /\ trace (previousSlide w) = trace w ++ protocolEvents c' w.
Proof.
  intros w c c'.
  change c' with (previousIndex w).
  rewrite previousSlide_changeSlide.
  destruct (changeSlide_spec (previousIndex w) w) as (Hs & _ & _ & Ht).
  rewrite Hs, Ht. repeat split; reflexivity.
Qed.

(** C4.  When looping, from a state with [currentSlide] in
    [[0, slideCount - slidesPerView]], one [nextSlide()] or [previousSlide()]
    call yields a [currentSlide] in the same interval, whatever the number of
    slides in the document. *)
Theorem loop_range_preserved : forall (c : Call) (w : World),
  loop (slider w) = true ->
  0 <= currentSlide (slider w) <= slideCount (dom w) - slidesPerView (slider w) ->
  0 <= currentSlide (slider (call c w))
    <= slideCount (dom (call c w)) - slidesPerView (slider (call c w)).
Proof.
  intros c w Hl Hr.
  destruct (call_frame c w) as (Hv & _ & Hn).
  rewrite Hv, Hn, call_index.
  destruct c; unfold nextIndex, previousIndex; rewrite Hl.
  - destruct (Z.ltb_spec (currentSlide (slider w))
                (slideCount (dom w) - slidesPerView (slider w))); lia.
  - destruct (Z.gtb_spec (currentSlide (slider w)) 0); lia.
Qed.

Lemma loop_range_preserved_witness :
  let w := sampleWorld 5 2 3 true [] in
  loop (slider w) = true
  /\ 0 <= currentSlide (slider w) <= slideCount (dom w) - slidesPerView (slider w)
  /\ currentSlide (slider (call Next w)) = 0
  /\ 0 <= currentSlide (slider (call Next w))
       <= slideCount (dom (call Next w)) - slidesPerView (slider (call Next w)).
Proof.
  intros w.
  assert (Hl : loop (slider w) = true) by reflexivity.
  assert (Hr : 0 <= currentSlide (slider w)
               <= slideCount (dom w) - slidesPerView (slider w))
    by (vm_compute; split; discriminate).
  split; [exact Hl | split; [exact Hr | split; [reflexivity |]]].
  exact (loop_range_preserved Next w Hl Hr).
Defined.

(** C5.  [changeSlide(index)] stores [index] in [currentSlide] as it is, for
    every integer, and then runs the change protocol; it raises nothing (its
    result is a state, not a [Result]). *)
Theorem changeSlide_unclamped : forall (index : Z) (w : World),
  currentSlide (slider (changeSlide index w)) = index
  /\ changeSlide index w = handleChangeSlide (withSlider (setCurrentSlide index) w)
  /\ trace (changeSlide index w) = trace w ++ protocolEvents index w.
Proof.
  intros index w.
  destruct (changeSlide_spec index w) as (Hs & _ & _ & Ht).
  rewrite Hs, Ht. repeat split; reflexivity.
Qed.



(** ** Pagination: the markers made by [init] *)

Lemma Array_negative len : len < 0 -> Array len = Throw RangeError.
Proof.
  intros H. unfold Array. destruct (Z.leb_spec 0 len); [lia | reflexivity].
Qed.


Lemma appendCount_app : forall a b,
  appendCount (a ++ b) = (appendCount a + appendCount b)%nat.
Proof.
  induction a as [|e r IH]; intros b; simpl; [reflexivity|].
  destruct e; simpl; now rewrite IH.
Qed.

Section PaginationLoop.

Variables (itemClass itemActiveClass : string) (numbering : bool).

Lemma iteration_counts w i :
  List.length (pagination (dom (iteration itemClass itemActiveClass numbering w i)))
  = S (List.length (pagination (dom w)))
  /\ appendCount (trace (iteration itemClass itemActiveClass numbering w i))
     = S (appendCount (trace w)).
Proof.
  unfold iteration. rewrite changeActiveState_length.
  destruct (changeActiveState_frame itemClass itemActiveClass
              (appendItem itemClass numbering i w)) as (_ & _ & _ & Ht).
  rewrite Ht. unfold appendItem; simpl.
  rewrite length_app, appendCount_app; simpl. split; lia.
Qed.

Lemma iterations_count : forall (l : list nat) (w : World),
  List.length
    (pagination (dom (fold_left (iteration itemClass itemActiveClass numbering) l w)))
  = (List.length l + List.length (pagination (dom w)))%nat
  /\ appendCount (trace (fold_left (iteration itemClass itemActiveClass numbering) l w))
     = (List.length l + appendCount (trace w))%nat.
Proof.
  induction l as [|i r IH]; intros w; simpl; [auto|].
  destruct (IH (iteration itemClass itemActiveClass numbering w i)) as (H1 & H2).
  destruct (iteration_counts w i) as (H3 & H4).
  rewrite H1, H2, H3, H4. split; lia.
Qed.

End PaginationLoop.




(** ** Pagination: a negative marker count *)

Lemma navigationInit_frame c w :
  exists w', navigationInit c w = Ok w'
    /\ slider w' = slider w /\ slides (dom w') = slides (dom w).
Proof.
  unfold navigationInit. eexists; split; [reflexivity|].
  match goal with |- context [changeDisabledState c ?x] =>
    destruct (changeDisabledState_frame c x) as (Hs & Hd & _ & _) end.
  rewrite Hs, Hd. split; reflexivity.
Qed.

Lemma paginationInit_throws ic iac nb cl w :
  slideCount (dom w) - slidesPerView (slider w) + 1 < 0 ->
  paginationInit ic iac nb cl w = Throw RangeError.
Proof.
  intros H. unfold paginationInit. now rewrite (Array_negative _ H).
Qed.

Lemma initAll_throws : forall (ps : list Plugin) (k : nat) (w : World) ic iac nb cl,
  slideCount (dom w) - slidesPerView (slider w) + 1 < 0 ->
  In (Pagination ic iac nb cl) ps ->
  initAll ps k w = Throw RangeError.
Proof.
  induction ps as [|p r IH]; intros k w ic iac nb cl Hn Hin; [destruct Hin|].
  cbn [initAll]. destruct p as [ic' iac' nb' cl' | c]; cbn [pluginInit].
  - rewrite paginationInit_throws; [reflexivity | exact Hn].
  - destruct Hin as [Heq | Hin]; [discriminate Heq|].
    destruct (navigationInit_frame c (emit (EvInit k (Navigation c)) w))
      as (w' & Hw' & Hs & Hd).
    rewrite Hw'; cbn [bind].
    apply (IH (S k) w' ic iac nb cl); [|exact Hin].
    rewrite Hs, (slideCount_slides _ _ Hd). exact Hn.
Qed.

(** C10.  When [slideCount - slidesPerView + 1] is negative,
    [Pagination.init] raises the invalid-array-length [RangeError] (no zero
    markers are made), and [init()] of a slider registering such a plugin
    raises it too. *)
Theorem paginationInit_negative_length :
  forall (itemClass itemActiveClass : string) (numbering clickable : bool) (w : World),
  slideCount (dom w) - slidesPerView (slider w) + 1 < 0 ->
  In (Pagination itemClass itemActiveClass numbering clickable) (plugins (slider w)) ->
  paginationInit itemClass itemActiveClass numbering clickable w = Throw RangeError
  /\ init w = Throw RangeError.
Proof.
  intros ic iac nb cl w Hn Hin.
  split; [apply paginationInit_throws; exact Hn|].
  unfold init.
  match goal with |- bind (initAll ?ps ?k ?x) _ = _ =>
    assert (Hx : slider x = slider w /\ dom x = dom w)
      by (destruct (draggable (slider (emit _ w))); split; reflexivity);
    rewrite (initAll_throws ps k x ic iac nb cl)
  end.
  - reflexivity.
  - destruct Hx as (-> & ->). exact Hn.
  - destruct Hx as (-> & _). exact Hin.
Qed.

Lemma paginationInit_negative_length_witness :
  let o := mkOptions 3 0 20%Q 500%Q [defaultNavigation; defaultPagination]
             false 5000%Q false "horizontal" true in
  let d := sampleDom 1 in
  slideCount d - optSlidesPerView o + 1 < 0
  /\ In defaultPagination (optPlugins o)
  /\ newSlider o d = Throw RangeError.
Proof.
  intros o d.
  assert (Hn : slideCount d - optSlidesPerView o + 1 < 0) by reflexivity.
  assert (Hin : In defaultPagination (optPlugins o)) by (right; left; reflexivity).
  split; [exact Hn | split; [exact Hin |]].
  exact (proj2 (paginationInit_negative_length
                  "slider-pagination-item" "slider-pagination-item--active" true true
                  (mkWorld
                     (mkSlider 3 0 20%Q 500%Q 0 false 5000%Q false
                        [defaultNavigation; defaultPagination] "horizontal" true)
                     d None [])
                  Hn Hin)).
Defined.

(** ** Auto-play *)


(** ** Dragging *)

Lemma restingOffset_step w :
  restingOffset w = px_mul (slideStep w) (Some (inject_Z (currentSlide (slider w)))).
Proof. reflexivity. Qed.

Lemma Qgt_bool_iff (x y : Q) : negb (Qle_bool x y) = true <-> (y < x)%Q.
Proof.
  rewrite negb_true_iff. split.
  - intros H. apply Qnot_le_lt. intros Hle. apply Qle_bool_iff in Hle. congruence.
  - intros H. destruct (Qle_bool x y) eqn:E; [|reflexivity].
    apply Qle_bool_iff in E. exfalso. exact (Qlt_not_le _ _ H E).
Qed.

Lemma third_nonneg (x : Q) : (0 <= x)%Q -> (0 <= x / 3)%Q.
Proof. intros H. apply Qle_shift_div_l; [reflexivity | lra]. Qed.

Lemma third_exclusive (x d : Q) :
  (0 <= x)%Q -> (x / 3 < - d)%Q -> ~ (x / 3 < d)%Q.
Proof.
  intros H. apply third_nonneg in H. revert H.
  generalize (x / 3)%Q. intros t H0 H1. lra.
Qed.

Lemma releaseDecision_cases (w : World) (g : Drag) :
  let far := px_gt (Some (distance g)) (px_div (outerWidth (dom w)) (Some 3%Q)) in
  let back := px_gt (Some (- distance g)%Q) (px_div (outerWidth (dom w)) (Some 3%Q)) in
  let mayNext := (loop (slider w) || beforeLast w)%bool in
  let mayPrev := (loop (slider w) || (currentSlide (slider w) >? 0))%bool in
  (releaseDecision w g = CallNext <-> far = true /\ mayNext = true)
  /\ (releaseDecision w g = CallPrevious
      <-> (far && mayNext)%bool = false /\ back = true /\ mayPrev = true).
Proof.
  intros far back mayNext mayPrev. unfold releaseDecision.
  fold far. fold back. fold mayNext. fold mayPrev.
  destruct far, mayNext, back, mayPrev; simpl;
    (split; split; intros H; try discriminate H; intuition congruence).
Qed.

(** C9 (as amended).  On [mouseup] with the drag handlers bound and a first
    slide of outer width [width >= 0] (the width without the margins that
    make [spaceBetween]): [nextSlide()] is called if and only if
    [distance > width / 3] and ([loop], or
    [currentSlide < slideCount - slidesPerView]); [previousSlide()] is called
    if and only if [-distance > width / 3] and ([loop], or
    [currentSlide > 0]); otherwise the wrapper's transform is set back to the
    resting offset, [currentSlide] stays, and neither the transition nor any
    plugin's [change] is triggered. *)
Theorem mouseup_spec : forall (w : World) (g : Drag) (width : Q),
  drag w = Some g ->
  outerWidth (dom w) = Some width ->
  (0 <= width)%Q ->
  mouseup w
  = withDrag (Some (mkDrag false 0 0))
      (match releaseDecision w g with
       | CallNext => nextSlide w
       | CallPrevious => previousSlide w
       | SnapBack => emit (EvTransform (TranslateNeg (restingOffset w))) w
       end)
  /\ (releaseDecision w g = CallNext
      <-> (width / 3 < distance g)%Q
          /\ (loop (slider w) = true
              \/ currentSlide (slider w) < slideCount (dom w) - slidesPerView (slider w)))
  /\ (releaseDecision w g = CallPrevious
      <-> (width / 3 < - distance g)%Q
          /\ (loop (slider w) = true \/ currentSlide (slider w) > 0))
  /\ (releaseDecision w g = SnapBack ->
      currentSlide (slider (mouseup w)) = currentSlide (slider w)
      /\ trace (mouseup w) = trace w ++ [EvTransform (TranslateNeg (restingOffset w))]).
Proof.
  intros w g width Hg Hw Hpos.
  assert (Hm : mouseup w
               = withDrag (Some (mkDrag false 0 0))
                   (match releaseDecision w g with
                    | CallNext => nextSlide w
                    | CallPrevious => previousSlide w
                    | SnapBack => emit (EvTransform (TranslateNeg (restingOffset w))) w
                    end))
    by (unfold mouseup; rewrite Hg; reflexivity).
  split; [exact Hm|].
  assert (Hnext : px_gt (Some (distance g)) (px_div (outerWidth (dom w)) (Some 3%Q)) = true
                  <-> (width / 3 < distance g)%Q)
    by (rewrite Hw; simpl; apply Qgt_bool_iff).
  assert (Hprev : px_gt (Some (- distance g)%Q) (px_div (outerWidth (dom w)) (Some 3%Q)) = true
                  <-> (width / 3 < - distance g)%Q)
    by (rewrite Hw; simpl; apply Qgt_bool_iff).
  assert (Hlast : (loop (slider w) || beforeLast w)%bool = true
                  <-> loop (slider w) = true
                      \/ currentSlide (slider w)
                         < slideCount (dom w) - slidesPerView (slider w))
    by (unfold beforeLast; rewrite orb_true_iff, Z.ltb_lt; reflexivity).
  assert (Hfirst : (loop (slider w) || (currentSlide (slider w) >? 0))%bool = true
                   <-> loop (slider w) = true \/ currentSlide (slider w) > 0)
    by (rewrite orb_true_iff, Z.gtb_gt; reflexivity).
  destruct (releaseDecision_cases w g) as (Hn & Hp); cbv zeta in Hn, Hp.
  split; [|split].
  - rewrite Hn, Hnext, Hlast. reflexivity.
  - rewrite Hp, Hprev, Hfirst, andb_false_iff. split.
    + intros (_ & Ha & Hb). split; assumption.
    + intros (Ha & Hb). split; [|split; assumption].
      left. destruct (px_gt (Some (distance g)) (px_div (outerWidth (dom w)) (Some 3%Q)))
        eqn:E; [|reflexivity].
      exfalso. apply (third_exclusive width (distance g) Hpos Ha).
      apply Hnext. reflexivity.
  - intros Hsnap. rewrite Hm, Hsnap. simpl. split; reflexivity.
Qed.

Lemma mouseup_spec_witness :
  let g := mkDrag true 500 150 in
  let w := withDrag (Some g)
             (sampleWorld 6 3 0 false [defaultPagination; defaultNavigation]) in
  drag w = Some g
  /\ outerWidth (dom w) = Some 300%Q
  /\ (0 <= 300)%Q
  /\ releaseDecision w g = CallNext
  /\ currentSlide (slider (mouseup w)) = 1
  /\ (releaseDecision w g = CallNext
      <-> (300 / 3 < distance g)%Q
          /\ (loop (slider w) = true
              \/ currentSlide (slider w) < slideCount (dom w) - slidesPerView (slider w))).
Proof.
  intros g w.
  assert (Hg : drag w = Some g) by reflexivity.
  assert (Hw : outerWidth (dom w) = Some 300%Q) by reflexivity.
  assert (Hpos : (0 <= 300)%Q) by (vm_compute; discriminate).
  split; [exact Hg | split; [exact Hw | split; [exact Hpos |]]].
  split; [vm_compute; reflexivity | split; [vm_compute; reflexivity |]].
  exact (proj1 (proj2 (mouseup_spec w g 300%Q Hg Hw Hpos))).
Defined.

(** C9, as stated, fails: with slides 300px wide and [spaceBetween = 20] the
    size of one slide including the space is 320px, a third of it is above
    106; a drag of 104px (more than a third of 300) calls [nextSlide()]. *)
Lemma release_threshold_without_space :
  let g := mkDrag true 500 104 in
  let w := withDrag (Some g) (sampleWorld 6 3 0 false []) in
  slideStep w = Some 320%Q
  /\ loop (slider w) = false
  /\ currentSlide (slider w) < slideCount (dom w) - slidesPerView (slider w)
  /\ releaseDecision w g = CallNext
  /\ currentSlide (slider (mouseup w)) = 1
  /\ ~ (320 / 3 < distance g)%Q.
Proof.
  intros g w.
  split; [vm_compute; reflexivity|].
  split; [reflexivity|].
  split; [vm_compute; reflexivity|].
  split; [vm_compute; reflexivity|].
  split; [vm_compute; reflexivity|].
  intros H. vm_compute in H. discriminate H.
Qed.

(** ** The scenarios of the specification *)

(** Six slides, three per view, no loop: the index goes 0, 1, 2, 3, 3. *)
Example scenario_nonloop_steps :
  map (fun calls => currentSlide (slider (run calls (sampleWorld 6 3 0 false []))))
      [[]; [Next]; [Next; Next]; [Next; Next; Next]; [Next; Next; Next; Next]]
  = [0; 1; 2; 3; 3].
Proof. vm_compute. reflexivity. Qed.

(** Five slides, two per view, loop: [nextSlide()] from 3 gives 0, and
    [previousSlide()] from 0 gives 3. *)
Example scenario_loop_wrap :
  currentSlide (slider (nextSlide (sampleWorld 5 2 3 true []))) = 0
  /\ currentSlide (slider (previousSlide (sampleWorld 5 2 0 true []))) = 3.
Proof. vm_compute. split; reflexivity. Qed.

(** The Navigation plugin at index 0 without loop: the previous button
    carries the disabled class, the next button does not. *)
Example scenario_navigation_disabled :
  let w := changeDisabledState "slider-button--disabled"
             (sampleWorld 6 3 0 false [defaultNavigation]) in
  hasClass "slider-button--disabled" (buttonPrev (dom w)) = true
  /\ hasClass "slider-button--disabled" (buttonNext (dom w)) = false.
Proof. vm_compute. split; reflexivity. Qed.

(** A [changeSlide] outside the marker range leaves no marker active. *)
Example scenario_out_of_range_markers :
  match newSlider (mkOptions 3 0 20%Q 500%Q [defaultPagination] false 5000%Q false
                     "horizontal" true) (sampleDom 6) with
  | Ok w =>
      map (hasClass "slider-pagination-item--active") (pagination (dom w))
      = [true; false; false; false]
      /\ map (hasClass "slider-pagination-item--active")
             (pagination (dom (changeSlide 7 w)))
         = [false; false; false; false]
  | Throw _ => False
  end.
Proof. vm_compute. split; reflexivity. Qed.

(** * Further properties of the controller *)

(** ** Repeated stepping *)

Lemma loop_next_index w :
  loop (slider w) = true ->
  0 <= currentSlide (slider w) <= slideCount (dom w) - slidesPerView (slider w) ->
  nextIndex w
  = (currentSlide (slider w) + 1) mod (slideCount (dom w) - slidesPerView (slider w) + 1).
Proof.
  intros Hl Hr. unfold nextIndex. rewrite Hl.
  destruct (Z.ltb_spec (currentSlide (slider w))
              (slideCount (dom w) - slidesPerView (slider w))) as [H | H].
  - rewrite Z.mod_small; lia.
  - replace (currentSlide (slider w))
      with (slideCount (dom w) - slidesPerView (slider w)) by lia.
    now rewrite Z_mod_same_full.
Qed.

Lemma loop_previous_index w :
  loop (slider w) = true ->
  0 <= currentSlide (slider w) <= slideCount (dom w) - slidesPerView (slider w) ->
  previousIndex w
  = (currentSlide (slider w) - 1) mod (slideCount (dom w) - slidesPerView (slider w) + 1).
Proof.
  intros Hl Hr. unfold previousIndex. rewrite Hl.
  destruct (Z.gtb_spec (currentSlide (slider w)) 0) as [H | H].
  - rewrite Z.mod_small; lia.
  - replace (currentSlide (slider w)) with 0 by lia.
    set (m := slideCount (dom w) - slidesPerView (slider w)) in *.
    replace (0 - 1) with (m + (-1) * (m + 1)) by lia.
    rewrite Z.mod_add by lia. rewrite Z.mod_small; lia.
Qed.

(** When looping, [nextSlide()] is addition modulo the number of resting
    indices: from an index in [[0, slideCount - slidesPerView]], [k] calls give
    [(currentSlide + k) mod (slideCount - slidesPerView + 1)]. *)
Theorem loop_next_modular : forall (k : nat) (w : World),
  loop (slider w) = true ->
  0 <= currentSlide (slider w) <= slideCount (dom w) - slidesPerView (slider w) ->
  currentSlide (slider (run (repeat Next k) w))
  = (currentSlide (slider w) + Z.of_nat k)
      mod (slideCount (dom w) - slidesPerView (slider w) + 1).
Proof.
  induction k as [|k IH]; intros w Hl Hr.
  - simpl. rewrite Z.add_0_r, Z.mod_small; lia.
  - change (run (repeat Next (S k)) w) with (run (repeat Next k) (call Next w)).
    destruct (call_frame Next w) as (Hv & Hl' & Hn).
    pose proof (call_index Next w) as Hi. cbv beta iota in Hi.
    rewrite (loop_next_index w Hl Hr) in Hi.
    set (M := slideCount (dom w) - slidesPerView (slider w) + 1) in *.
    assert (HM : 0 < M) by (unfold M; lia).
    pose proof (Z.mod_pos_bound (currentSlide (slider w) + 1) M HM) as Hb.
    rewrite IH.
    + rewrite Hn, Hv, Hi. fold M. rewrite Zplus_mod_idemp_l.
      f_equal. lia.
    + congruence.
    + rewrite Hn, Hv, Hi. fold M. lia.
Qed.

Lemma loop_next_modular_witness :
  let w := sampleWorld 5 2 3 true [defaultNavigation] in
  loop (slider w) = true
  /\ 0 <= currentSlide (slider w) <= slideCount (dom w) - slidesPerView (slider w)
  /\ currentSlide (slider (run (repeat Next 4) w))
     = (currentSlide (slider w) + Z.of_nat 4)
         mod (slideCount (dom w) - slidesPerView (slider w) + 1).
Proof.
  intros w.
  assert (Hl : loop (slider w) = true) by reflexivity.
  assert (Hr : 0 <= currentSlide (slider w)
               <= slideCount (dom w) - slidesPerView (slider w))
    by (vm_compute; split; discriminate).
  split; [exact Hl | split; [exact Hr |]].
  exact (loop_next_modular 4 w Hl Hr).
Defined.

(** When looping, [previousSlide()] is subtraction modulo the number of
    resting indices. *)
Theorem loop_previous_modular : forall (k : nat) (w : World),
  loop (slider w) = true ->
  0 <= currentSlide (slider w) <= slideCount (dom w) - slidesPerView (slider w) ->
  currentSlide (slider (run (repeat Previous k) w))
  = (currentSlide (slider w) - Z.of_nat k)
      mod (slideCount (dom w) - slidesPerView (slider w) + 1).
Proof.
  induction k as [|k IH]; intros w Hl Hr.
  - simpl. rewrite Z.sub_0_r, Z.mod_small; lia.
  - change (run (repeat Previous (S k)) w)
      with (run (repeat Previous k) (call Previous w)).
    destruct (call_frame Previous w) as (Hv & Hl' & Hn).
    pose proof (call_index Previous w) as Hi. cbv beta iota in Hi.
    rewrite (loop_previous_index w Hl Hr) in Hi.
    set (M := slideCount (dom w) - slidesPerView (slider w) + 1) in *.
    assert (HM : 0 < M) by (unfold M; lia).
    pose proof (Z.mod_pos_bound (currentSlide (slider w) - 1) M HM) as Hb.
    rewrite IH.
    + rewrite Hn, Hv, Hi. fold M. rewrite Zminus_mod_idemp_l.
      f_equal. lia.
    + congruence.
    + rewrite Hn, Hv, Hi. fold M. lia.
Qed.

Lemma loop_previous_modular_witness :
  let w := sampleWorld 5 2 1 true [defaultNavigation] in
  loop (slider w) = true
  /\ 0 <= currentSlide (slider w) <= slideCount (dom w) - slidesPerView (slider w)
  /\ currentSlide (slider (run (repeat Previous 3) w))
     = (currentSlide (slider w) - Z.of_nat 3)
         mod (slideCount (dom w) - slidesPerView (slider w) + 1).
Proof.
  intros w.
  assert (Hl : loop (slider w) = true) by reflexivity.
  assert (Hr : 0 <= currentSlide (slider w)
               <= slideCount (dom w) - slidesPerView (slider w))
    by (vm_compute; split; discriminate).
  split; [exact Hl | split; [exact Hr |]].
  exact (loop_previous_modular 3 w Hl Hr).
Defined.

(** When looping, [previousSlide()] undoes [nextSlide()] and conversely, on
    every index in [[0, slideCount - slidesPerView]]. *)
Theorem loop_next_previous_inverse : forall w : World,
  loop (slider w) = true ->
  0 <= currentSlide (slider w) <= slideCount (dom w) - slidesPerView (slider w) ->
  currentSlide (slider (previousSlide (nextSlide w))) = currentSlide (slider w)
  /\ currentSlide (slider (nextSlide (previousSlide w))) = currentSlide (slider w).
Proof.
  intros w Hl Hr. split.
  - destruct (call_frame Next w) as (Hv & Hl' & Hn). simpl in Hv, Hl', Hn.
    pose proof (call_index Next w) as Hi. simpl in Hi.
    pose proof (call_index Previous (nextSlide w)) as Hp. simpl in Hp.
    rewrite Hp. unfold previousIndex. rewrite Hl', Hl, Hn, Hv, Hi.
    unfold nextIndex. rewrite Hl.
    destruct (Z.ltb_spec (currentSlide (slider w))
                (slideCount (dom w) - slidesPerView (slider w))).
    + destruct (Z.gtb_spec (currentSlide (slider w) + 1) 0); lia.
    + simpl. lia.
  - destruct (call_frame Previous w) as (Hv & Hl' & Hn). simpl in Hv, Hl', Hn.
    pose proof (call_index Previous w) as Hi. simpl in Hi.
    pose proof (call_index Next (previousSlide w)) as Hp. simpl in Hp.
    rewrite Hp. unfold nextIndex. rewrite Hl', Hl, Hn, Hv, Hi.
    unfold previousIndex. rewrite Hl.
    destruct (Z.gtb_spec (currentSlide (slider w)) 0).
    + destruct (Z.ltb_spec (currentSlide (slider w) - 1)
                  (slideCount (dom w) - slidesPerView (slider w))); lia.
    + rewrite Z.ltb_irrefl. lia.
Qed.

Lemma loop_next_previous_inverse_witness :
  let w := sampleWorld 5 2 3 true [defaultPagination] in
  loop (slider w) = true
  /\ 0 <= currentSlide (slider w) <= slideCount (dom w) - slidesPerView (slider w)
  /\ currentSlide (slider (previousSlide (nextSlide w))) = currentSlide (slider w)
  /\ currentSlide (slider (nextSlide (previousSlide w))) = currentSlide (slider w).
Proof.
  intros w.
  assert (Hl : loop (slider w) = true) by reflexivity.
  assert (Hr : 0 <= currentSlide (slider w)
               <= slideCount (dom w) - slidesPerView (slider w))
    by (vm_compute; split; discriminate).
  split; [exact Hl | split; [exact Hr |]].
  exact (loop_next_previous_inverse w Hl Hr).
Defined.

(** Without looping, [k] calls of [nextSlide()] move the index up by [k] but
    not beyond [slideCount - slidesPerView]; an index already beyond it stays
    where it is. *)
Theorem nonloop_next_saturates : forall (k : nat) (w : World),
  loop (slider w) = false ->
  currentSlide (slider (run (repeat Next k) w))
  = Z.max (currentSlide (slider w))
      (Z.min (currentSlide (slider w) + Z.of_nat k)
             (slideCount (dom w) - slidesPerView (slider w))).
Proof.
  induction k as [|k IH]; intros w Hl.
  - simpl. lia.
  - change (run (repeat Next (S k)) w) with (run (repeat Next k) (call Next w)).
    destruct (call_frame Next w) as (Hv & Hl' & Hn).
    pose proof (call_index Next w) as Hi. cbv beta iota in Hi.
    rewrite IH by congruence.
    rewrite Hn, Hv, Hi. unfold nextIndex. rewrite Hl.
    destruct (Z.ltb_spec (currentSlide (slider w))
                (slideCount (dom w) - slidesPerView (slider w))); lia.
Qed.

Lemma nonloop_next_saturates_witness :
  let w := sampleWorld 6 3 1 false [defaultPagination] in
  loop (slider w) = false
  /\ currentSlide (slider (run (repeat Next 5) w)) = 3
  /\ currentSlide (slider (run (repeat Next 5) w))
     = Z.max (currentSlide (slider w))
         (Z.min (currentSlide (slider w) + Z.of_nat 5)
                (slideCount (dom w) - slidesPerView (slider w))).
Proof.
  intros w.
  assert (Hl : loop (slider w) = false) by reflexivity.
  split; [exact Hl | split; [vm_compute; reflexivity |]].
  exact (nonloop_next_saturates 5 w Hl).
Defined.

(** Without looping, [k] calls of [previousSlide()] move the index down by
    [k] but not below [0]; a negative index stays where it is. *)
Theorem nonloop_previous_saturates : forall (k : nat) (w : World),
  loop (slider w) = false ->
  currentSlide (slider (run (repeat Previous k) w))
  = Z.min (currentSlide (slider w)) (Z.max (currentSlide (slider w) - Z.of_nat k) 0).
Proof.
  induction k as [|k IH]; intros w Hl.
  - simpl. lia.
  - change (run (repeat Previous (S k)) w)
      with (run (repeat Previous k) (call Previous w)).
    destruct (call_frame Previous w) as (Hv & Hl' & Hn).
    pose proof (call_index Previous w) as Hi. cbv beta iota in Hi.
    rewrite IH by congruence.
    rewrite Hi. unfold previousIndex. rewrite Hl.
    destruct (Z.gtb_spec (currentSlide (slider w)) 0); lia.
Qed.

Lemma nonloop_previous_saturates_witness :
  let w := sampleWorld 6 3 2 false [defaultNavigation] in
  loop (slider w) = false
  /\ currentSlide (slider (run (repeat Previous 5) w)) = 0
  /\ currentSlide (slider (run (repeat Previous 5) w))
     = Z.min (currentSlide (slider w)) (Z.max (currentSlide (slider w) - Z.of_nat 5) 0).
Proof.
  intros w.
  assert (Hl : loop (slider w) = false) by reflexivity.
  split; [exact Hl | split; [vm_compute; reflexivity |]].
  exact (nonloop_previous_saturates 5 w Hl).
Defined.

(** ** Selectors and classes *)

Lemma isSpace_dot : isSpace "."%char = false.
Proof. reflexivity. Qed.





Lemma hasClass_addClass1 t c e :
  hasClass t (addClass1 c e) = (hasClass t e || String.eqb t c)%bool.
Proof.
  unfold addClass1. destruct (hasClass c e) eqn:E.
  - destruct (String.eqb_spec t c) as [-> | Hne].
    + rewrite E. reflexivity.
    + now rewrite orb_false_r.
  - unfold hasClass; simpl. rewrite existsb_app. simpl. now rewrite orb_false_r.
Qed.

Lemma hasClass_removeClass1 t c e :
  hasClass t (removeClass1 c e) = (hasClass t e && negb (String.eqb c t))%bool.
Proof.
  unfold removeClass1, hasClass; simpl.
  induction (classes e) as [|x r IH]; simpl; [reflexivity|].
  destruct (String.eqb_spec c x) as [-> | Hne]; simpl.
  - rewrite IH. destruct (String.eqb_spec t x) as [-> | Hne'].
    + rewrite String.eqb_refl. simpl. now rewrite andb_false_r.
    + reflexivity.
  - rewrite IH. destruct (String.eqb_spec t x) as [-> | Hne'].
    + simpl. destruct (String.eqb_spec c x); [contradiction | reflexivity].
    + reflexivity.
Qed.

Lemma hasClass_addClasses : forall (ts : list string) (e : Element) (t : string),
  hasClass t (fold_left (fun e c => addClass1 c e) ts e)
  = (hasClass t e || existsb (String.eqb t) ts)%bool.
Proof.
  induction ts as [|c r IH]; intros e t; simpl.
  - now rewrite orb_false_r.
  - rewrite IH, hasClass_addClass1. now rewrite orb_assoc.
Qed.

Lemma hasClass_removeClasses : forall (ts : list string) (e : Element) (t : string),
  hasClass t (fold_left (fun e c => removeClass1 c e) ts e)
  = (hasClass t e && negb (existsb (String.eqb t) ts))%bool.
Proof.
  induction ts as [|c r IH]; intros e t; simpl.
  - now rewrite andb_true_r.
  - rewrite IH, hasClass_removeClass1, negb_orb.
    rewrite (String.eqb_sym c t). now rewrite andb_assoc.
Qed.

Lemma clicks_addClass cl e : clicks (addClass cl e) = clicks e.
Proof.
  unfold addClass. generalize (classTokens cl) as ts. intros ts. revert e.
  induction ts as [|c r IH]; intros e; simpl; [reflexivity|].
  rewrite IH. unfold addClass1. now destruct (hasClass c e).
Qed.

Lemma clicks_removeClass cl e : clicks (removeClass cl e) = clicks e.
Proof.
  unfold removeClass. generalize (classTokens cl) as ts. intros ts. revert e.
  induction ts as [|c r IH]; intros e; simpl; [reflexivity|].
  now rewrite IH.
Qed.

(** ** The Navigation plugin *)

(** [changeDisabledState] without looping: whatever classes the buttons had,
    afterwards the previous button carries every token of the disabled class
    exactly when [currentSlide == 0], and the next button exactly when
    [currentSlide == slideCount - slidesPerView].  When looping it changes
    nothing. *)
Theorem changeDisabledState_spec : forall (c t : string) (w : World),
  In t (classTokens c) ->
  if loop (slider w)
  then changeDisabledState c w = w
  else hasClass t (buttonPrev (dom (changeDisabledState c w)))
       = (currentSlide (slider w) =? 0)
       /\ hasClass t (buttonNext (dom (changeDisabledState c w)))
          = (currentSlide (slider w) =? slideCount (dom w) - slidesPerView (slider w)).
Proof.
  intros c t w Hin.
  assert (Hex : existsb (String.eqb t) (classTokens c) = true).
  { apply existsb_exists. exists t. split; [exact Hin | apply String.eqb_refl]. }
  unfold changeDisabledState.
  destruct (loop (slider w)); simpl; [reflexivity|].
  unfold slideCount.
  destruct (currentSlide (slider w) =? 0); simpl;
    destruct (currentSlide (slider w)
              =? Z.of_nat (List.length (slides (dom w))) - slidesPerView (slider w));
    simpl; unfold addClass, removeClass;
    rewrite ?hasClass_addClasses, ?hasClass_removeClasses, Hex;
    rewrite ?orb_true_r, ?andb_false_r; split; reflexivity.
Qed.

Lemma changeDisabledState_spec_witness :
  let w := sampleWorld 6 3 3 false [defaultNavigation] in
  In "off"%string (classTokens "off gone")
  /\ hasClass "off" (buttonPrev (dom (changeDisabledState "off gone" w))) = false
  /\ hasClass "off" (buttonNext (dom (changeDisabledState "off gone" w))) = true.
Proof.
  intros w.
  assert (Hin : In "off"%string (classTokens "off gone")) by (left; reflexivity).
  split; [exact Hin |].
  exact (changeDisabledState_spec "off gone" "off" w Hin).
Defined.

(** ** The Pagination plugin on its own markers *)



Section OneTokenClasses.

Variables (itemClass itemActiveClass : string) (numbering : bool).

Hypothesis itemClass_token : classTokens itemClass = [itemClass].
Hypothesis itemClass_selector :
  selectorClasses (getSelectorFromClass itemClass) = [itemClass].
Hypothesis itemActiveClass_token : classTokens itemActiveClass = [itemActiveClass].
Hypothesis classes_differ : itemClass <> itemActiveClass.



Lemma marker_clickable c i :
  click (PaginationClick itemClass itemActiveClass i)
    (marker itemClass itemActiveClass numbering false c i)
  = marker itemClass itemActiveClass numbering true c i.
Proof. reflexivity. Qed.






End OneTokenClasses.






(** ** What the handlers leave alone *)

Lemma eachFrom_clicks sel (f : nat -> Element -> Element) :
  (forall i e, clicks (f i e) = clicks e) ->
  forall els i, map clicks (eachFrom sel f i els) = map clicks els.
Proof.
  intros Hf. induction els as [|e r IH]; intros i; simpl; [reflexivity|].
  destruct (matches sel e); simpl; now rewrite ?Hf, IH.
Qed.

Lemma changeActiveState_handlers ic iac w :
  handlersOf (dom (changeActiveState ic iac w)) = handlersOf (dom w).
Proof.
  unfold changeActiveState, handlersOf; simpl. do 2 f_equal.
  apply eachFrom_clicks. intros i e.
  destruct (currentSlide (slider w) =? Z.of_nat i);
    [apply clicks_addClass | apply clicks_removeClass].
Qed.

Lemma changeDisabledState_handlers c w :
  handlersOf (dom (changeDisabledState c w)) = handlersOf (dom w)
  /\ pagination (dom (changeDisabledState c w)) = pagination (dom w).
Proof.
  unfold changeDisabledState.
  destruct (negb (loop (slider w))); [|auto].
  destruct (currentSlide (slider w) =? 0); simpl;
    match goal with |- context [if ?b then _ else _] => destruct b end;
    unfold handlersOf; simpl;
    rewrite ?clicks_addClass, ?clicks_removeClass; auto.
Qed.

Lemma pluginChange_handlers p w :
  handlersOf (dom (pluginChange p w)) = handlersOf (dom w).
Proof.
  destruct p as [ic iac nb cl | c]; simpl;
    [apply changeActiveState_handlers | apply changeDisabledState_handlers].
Qed.

Lemma changeAll_handlers : forall ps k w,
  handlersOf (dom (changeAll ps k w)) = handlersOf (dom w).
Proof.
  induction ps as [|p r IH]; intros k w; simpl; [reflexivity|].
  rewrite IH, pluginChange_handlers. reflexivity.
Qed.

Lemma changeSlide_handlers index w :
  handlersOf (dom (changeSlide index w)) = handlersOf (dom w).
Proof.
  unfold changeSlide, handleChangeSlide. rewrite changeAll_handlers. reflexivity.
Qed.

Lemma timeouts_app : forall a b, timeouts (a ++ b) = (timeouts a + timeouts b)%nat.
Proof.
  induction a as [|e r IH]; intros b; simpl; [reflexivity|].
  destruct e; simpl; now rewrite IH.
Qed.

Lemma timeouts_changeEvents : forall ps k, timeouts (changeEvents ps k) = 0%nat.
Proof. induction ps as [|p r IH]; intros k; simpl; auto. Qed.

Lemma timeouts_protocolEvents c w : timeouts (protocolEvents c w) = 0%nat.
Proof. unfold protocolEvents; simpl. apply timeouts_changeEvents. Qed.

Lemma config_setCurrentSlide i s : config (setCurrentSlide i s) = config s.
Proof. destruct s; reflexivity. Qed.

Lemma config_setAutoPlay b s : config (setAutoPlay b s) = config s.
Proof. destruct s; reflexivity. Qed.

Lemma stable_refl w : stable w w.
Proof. unfold stable. repeat split; auto. Qed.

Lemma stable_trans w1 w2 w3 : stable w1 w2 -> stable w2 w3 -> stable w1 w3.
Proof.
  unfold stable. intros (A1 & A2 & A3 & A4 & A5) (B1 & B2 & B3 & B4 & B5).
  repeat split; try congruence; auto.
  - destruct (A5 H) as (Ha & _). destruct (B5 Ha) as (Hb & _). exact Hb.
  - destruct (A5 H) as (Ha & Ht). destruct (B5 Ha) as (_ & Ht'). congruence.
Qed.

Lemma stable_changeSlide index w : stable w (changeSlide index w).
Proof.
  destruct (changeSlide_spec index w) as (Hs & Hd & Hg & Ht).
  unfold stable. rewrite Hs, Hd, Hg, Ht, changeSlide_handlers, config_setCurrentSlide.
  repeat split; auto.
  rewrite timeouts_app, timeouts_protocolEvents. lia.
Qed.

Lemma stable_nextSlide w : stable w (nextSlide w).
Proof. rewrite nextSlide_changeSlide. apply stable_changeSlide. Qed.

Lemma stable_previousSlide w : stable w (previousSlide w).
Proof. rewrite previousSlide_changeSlide. apply stable_changeSlide. Qed.

Lemma stable_changeActiveState ic iac w : stable w (changeActiveState ic iac w).
Proof.
  unfold stable. rewrite changeActiveState_handlers.
  destruct (changeActiveState_frame ic iac w) as (Hs & Hd & Hg & Ht).
  rewrite Hs, Hd, Hg, Ht. repeat split; auto.
Qed.

Lemma stable_autoPlay_off w : stable w (withSlider (setAutoPlay false) w).
Proof.
  unfold stable; simpl. rewrite config_setAutoPlay. repeat split; auto.
Qed.

Lemma stable_withDrag g w : g <> None -> drag w <> None -> stable w (withDrag g w).
Proof.
  intros Hg Hw. unfold stable; simpl. repeat split; auto. intros H; contradiction.
Qed.

Lemma stable_emit_transform t w : stable w (emit (EvTransform t) w).
Proof.
  unfold stable; simpl. repeat split; auto.
  rewrite timeouts_app; simpl. lia.
Qed.

Lemma stable_runHandler h w : stable w (runHandler h w).
Proof.
  destruct h as [ic iac i | |]; simpl;
    [| apply stable_nextSlide | apply stable_previousSlide].
  eapply stable_trans; [apply stable_changeSlide|].
  eapply stable_trans; [apply stable_changeActiveState|].
  match goal with |- context [if ?b then _ else _] => destruct b end;
    [apply stable_autoPlay_off | apply stable_refl].
Qed.

Lemma stable_runHandlers : forall hs w, stable w (runHandlers hs w).
Proof.
  induction hs as [|h r IH]; intros w; simpl; [apply stable_refl|].
  eapply stable_trans; [apply stable_runHandler | apply IH].
Qed.

Lemma stable_autoPlayFire w : stable w (autoPlayFire w).
Proof.
  unfold autoPlayFire. destruct (autoPlay (slider w)) eqn:Ea; [|apply stable_refl].
  assert (H : forall w1, stable w w1 -> stable w (handleAutoPlay w1)).
  { intros w1 (A1 & A2 & A3 & A4 & _). unfold stable, handleAutoPlay; simpl.
    split; [exact A1 | split; [exact A2 | split; [exact A3 | split; [exact A4 |]]]].
    intros Hf. congruence. }
  apply H. destruct (beforeLast w);
    [apply stable_nextSlide | apply stable_changeSlide].
Qed.

Lemma stable_mousedown x w : stable w (mousedown x w).
Proof.
  unfold mousedown. destruct (drag w) eqn:E; [|apply stable_refl].
  apply stable_withDrag; congruence.
Qed.

Lemma stable_mousemove x w : stable w (mousemove x w).
Proof.
  unfold mousemove. destruct (drag w) as [g|] eqn:E; [|apply stable_refl].
  destruct (negb (isPressed g)); [apply stable_refl|].
  eapply stable_trans; [| apply stable_emit_transform].
  apply stable_withDrag; congruence.
Qed.

Lemma stable_mouseup w : stable w (mouseup w).
Proof.
  unfold mouseup. destruct (drag w) as [g|] eqn:E; [|apply stable_refl].
  assert (H : forall w1, stable w w1 -> stable w (withDrag (Some (mkDrag false 0 0)) w1)).
  { intros w1 (A1 & A2 & A3 & A4 & A5). unfold stable; simpl.
    split; [exact A1 | split; [exact A2 | split; [exact A3 | split; [| exact A5]]]].
    intros Hf. congruence. }
  apply H. destruct (releaseDecision w g);
    [apply stable_nextSlide | apply stable_previousSlide | apply stable_emit_transform].
Qed.

Lemma stable_step i w : stable w (step i w).
Proof.
  destruct i; simpl.
  - destruct (nth_error (pagination (dom w)) k);
      [apply stable_runHandlers | apply stable_refl].
  - apply stable_runHandlers.
  - apply stable_runHandlers.
  - apply stable_mousedown.
  - apply stable_mousemove.
  - apply stable_mouseup.
  - apply stable_autoPlayFire.
Qed.

Lemma stable_steps : forall inputs w, stable w (steps inputs w).
Proof.
  induction inputs as [|i r IH]; intros w; simpl; [apply stable_refl|].
  eapply stable_trans; [apply stable_step | apply IH].
Qed.

(** No sequence of clicks, mouse events and timer firings changes a field of
    the slider other than [currentSlide] and [autoPlay], the slides of the
    document, or the click handlers bound in it. *)
Theorem steps_keep_configuration : forall (inputs : list Input) (w : World),
  config (slider (steps inputs w)) = config (slider w)
  /\ slides (dom (steps inputs w)) = slides (dom w)
  /\ handlersOf (dom (steps inputs w)) = handlersOf (dom w).
Proof.
  intros inputs w. destruct (stable_steps inputs w) as (H1 & H2 & H3 & _). auto.
Qed.

(** Once [autoPlay] is off, no sequence of clicks, mouse events and timer
    firings turns it on again, and none arms another timeout. *)
Theorem autoPlay_off_is_final : forall (inputs : list Input) (w : World),
  autoPlay (slider w) = false ->
  autoPlay (slider (steps inputs w)) = false
  /\ timeouts (trace (steps inputs w)) = timeouts (trace w).
Proof.
  intros inputs w Ha. destruct (stable_steps inputs w) as (_ & _ & _ & _ & H). auto.
Qed.

Lemma autoPlay_off_is_final_witness :
  let w := sampleWorld 6 3 0 false [defaultPagination; defaultNavigation] in
  let inputs := [TimerFire; ClickNext; MouseDown 10; MouseMove 300; MouseUp; TimerFire] in
  autoPlay (slider w) = false
  /\ autoPlay (slider (steps inputs w)) = false
  /\ timeouts (trace (steps inputs w)) = timeouts (trace w).
Proof.
  intros w inputs.
  assert (Ha : autoPlay (slider w) = false) by reflexivity.
  split; [exact Ha |].
  exact (autoPlay_off_is_final inputs w Ha).
Defined.

(** ** The index stays a resting index *)

Lemma currentSlide_changeSlide index w :
  currentSlide (slider (changeSlide index w)) = index.
Proof. destruct (changeSlide_spec index w) as (Hs & _). now rewrite Hs. Qed.

Lemma stable_setup w w' :
  stable w w' ->
  slidesPerView (slider w') = slidesPerView (slider w)
  /\ loop (slider w') = loop (slider w)
  /\ slideCount (dom w') = slideCount (dom w).
Proof.
  intros (Hc & Hd & _).
  pose proof (f_equal slidesPerView Hc) as Hv.
  pose proof (f_equal loop Hc) as Hl.
  simpl in Hv, Hl. rewrite (slideCount_slides _ _ Hd). auto.
Qed.

Lemma within_stable m w w' :
  stable w w' -> within m w ->
  0 <= currentSlide (slider w') <= m ->
  within m w'.
Proof.
  intros Hst (Hm & Hlp & _ & Hh) Hc.
  destruct (stable_setup w w' Hst) as (Hv & Hl & Hn).
  destruct Hst as (_ & _ & Hhs & _).
  unfold within, lastIndex, handlersWithin in *.
  rewrite Hv, Hl, Hn, Hhs. auto.
Qed.

Lemma within_nextIndex m w : within m w -> 0 <= nextIndex w <= m.
Proof.
  unfold within, lastIndex, nextIndex. intros (Hm & Hlp & Hc & _).
  destruct (Z.ltb_spec (currentSlide (slider w))
              (slideCount (dom w) - slidesPerView (slider w))); [lia|].
  destruct (loop (slider w)); lia.
Qed.

Lemma within_previousIndex m w : within m w -> 0 <= previousIndex w <= m.
Proof.
  unfold within, lastIndex, previousIndex. intros (Hm & Hlp & Hc & _).
  destruct (Z.gtb_spec (currentSlide (slider w)) 0); [lia|].
  destruct (loop (slider w)); [|lia].
  specialize (Hlp eq_refl). lia.
Qed.

Lemma within_changeSlide m index w :
  within m w -> 0 <= index <= m -> within m (changeSlide index w).
Proof.
  intros Hw Hi. apply (within_stable m w); [apply stable_changeSlide | exact Hw |].
  now rewrite currentSlide_changeSlide.
Qed.

Lemma within_nextSlide m w : within m w -> within m (nextSlide w).
Proof.
  intros Hw. rewrite nextSlide_changeSlide.
  apply within_changeSlide; [exact Hw | now apply within_nextIndex].
Qed.

Lemma within_previousSlide m w : within m w -> within m (previousSlide w).
Proof.
  intros Hw. rewrite previousSlide_changeSlide.
  apply within_changeSlide; [exact Hw | now apply within_previousIndex].
Qed.

Lemma within_same_index m w w' :
  stable w w' -> currentSlide (slider w') = currentSlide (slider w) ->
  within m w -> within m w'.
Proof.
  intros Hst Hc Hw. apply (within_stable m w w' Hst Hw).
  rewrite Hc. destruct Hw as (_ & _ & H & _). exact H.
Qed.

Lemma within_runHandler m h w :
  handlerWithin m h -> within m w -> within m (runHandler h w).
Proof.
  intros Hh Hw. destruct h as [ic iac i | |];
    [| now apply within_nextSlide | now apply within_previousSlide].
  apply (within_stable m w); [apply stable_runHandler | exact Hw |].
  simpl in *.
  match goal with |- context [if ?b then _ else _] => destruct b end;
    simpl; rewrite currentSlide_changeSlide; lia.
Qed.

Lemma within_runHandlers m : forall hs w,
  Forall (handlerWithin m) hs -> within m w -> within m (runHandlers hs w).
Proof.
  induction hs as [|h r IH]; intros w Hall Hw; simpl; [exact Hw|].
  inversion Hall; subst. apply IH; [assumption|].
  now apply within_runHandler.
Qed.

Lemma within_step m i w : within m w -> within m (step i w).
Proof.
  intros Hw. pose proof Hw as (_ & _ & _ & Hh).
  unfold handlersWithin, handlersOf in Hh.
  inversion Hh as [|? ? Hprev Hh']; subst.
  inversion Hh' as [|? ? Hnext Hpag]; subst.
  destruct i; simpl.
  - destruct (nth_error (pagination (dom w)) k) as [e|] eqn:E; [|exact Hw].
    apply within_runHandlers; [|exact Hw].
    rewrite Forall_forall in Hpag. apply Hpag.
    apply in_map. eapply nth_error_In; eassumption.
  - now apply within_runHandlers.
  - now apply within_runHandlers.
  - apply (within_same_index m w); [apply stable_mousedown | | exact Hw].
    unfold mousedown. now destruct (drag w).
  - apply (within_same_index m w); [apply stable_mousemove | | exact Hw].
    unfold mousemove. destruct (drag w) as [g|]; [|reflexivity].
    now destruct (negb (isPressed g)).
  - unfold mouseup. destruct (drag w) as [g|] eqn:E; [|exact Hw].
    assert (H : forall w1, within m w1 -> within m (withDrag (Some (mkDrag false 0 0)) w1))
      by (intros w1 Hw1; exact Hw1).
    apply H. destruct (releaseDecision w g);
      [now apply within_nextSlide | now apply within_previousSlide | exact Hw].
  - unfold autoPlayFire. destruct (autoPlay (slider w)); [|exact Hw].
    assert (H : forall w1, within m w1 -> within m (handleAutoPlay w1))
      by (intros w1 Hw1; exact Hw1).
    apply H. destruct (beforeLast w); [now apply within_nextSlide|].
    apply within_changeSlide; [exact Hw|].
    destruct Hw as (_ & _ & Hc & _). lia.
Qed.

Lemma within_steps m : forall inputs w, within m w -> within m (steps inputs w).
Proof.
  induction inputs as [|i r IH]; intros w Hw; simpl; [exact Hw|].
  apply IH. now apply within_step.
Qed.

(** From an index in [[0, max(0, slideCount - slidesPerView)]], with bound
    marker handlers that lead to such indices only (and, when looping, at
    least [slidesPerView] slides), no sequence of clicks, mouse events and
    timer firings moves [currentSlide] out of that interval. *)
Theorem steps_in_range : forall (inputs : list Input) (w : World),
  (loop (slider w) = true -> slidesPerView (slider w) <= slideCount (dom w)) ->
  0 <= currentSlide (slider w) <= Z.max 0 (slideCount (dom w) - slidesPerView (slider w)) ->
  handlersWithin (Z.max 0 (slideCount (dom w) - slidesPerView (slider w))) (dom w) ->
  0 <= currentSlide (slider (steps inputs w))
    <= Z.max 0 (slideCount (dom w) - slidesPerView (slider w)).
Proof.
  intros inputs w Hlp Hc Hh.
  assert (Hw : within (lastIndex w) w) by (unfold within, lastIndex; auto).
  destruct (within_steps _ inputs w Hw) as (_ & _ & H & _). exact H.
Qed.

Lemma steps_in_range_witness :
  let w := withDom (setPagination (markers "dot" "on" true true 0 4))
             (sampleWorld 6 3 0 false [Pagination "dot" "on" true true; defaultNavigation]) in
  let inputs := [ClickMarker 3; TimerFire; MouseDown 400; MouseMove 10; MouseUp;
                 ClickMarker 9; ClickMarker 1] in
  (loop (slider w) = true -> slidesPerView (slider w) <= slideCount (dom w))
  /\ 0 <= currentSlide (slider w)
       <= Z.max 0 (slideCount (dom w) - slidesPerView (slider w))
  /\ handlersWithin (Z.max 0 (slideCount (dom w) - slidesPerView (slider w))) (dom w)
  /\ currentSlide (slider (steps inputs w)) = 1
  /\ 0 <= currentSlide (slider (steps inputs w))
       <= Z.max 0 (slideCount (dom w) - slidesPerView (slider w)).
Proof.
  intros w inputs.
  assert (Hlp : loop (slider w) = true -> slidesPerView (slider w) <= slideCount (dom w))
    by (intros H; discriminate H).
  assert (Hc : 0 <= currentSlide (slider w)
               <= Z.max 0 (slideCount (dom w) - slidesPerView (slider w)))
    by (vm_compute; split; discriminate).
  assert (Hh : handlersWithin
                 (Z.max 0 (slideCount (dom w) - slidesPerView (slider w))) (dom w))
    by (repeat constructor; vm_compute; discriminate).
  split; [exact Hlp | split; [exact Hc | split; [exact Hh | split; [vm_compute; reflexivity |]]]].
  exact (steps_in_range inputs w Hlp Hc Hh).
Defined.

(** ** Initialisation *)

Lemma initialised_app : forall a b, initialised (a ++ b) = initialised a ++ initialised b.
Proof.
  induction a as [|e r IH]; intros b; simpl; [reflexivity|].
  destruct e; simpl; now rewrite IH.
Qed.

Lemma iterations_frame ic iac nb : forall (l : list nat) (w : World),
  slider (fold_left (iteration ic iac nb) l w) = slider w
  /\ slides (dom (fold_left (iteration ic iac nb) l w)) = slides (dom w)
  /\ drag (fold_left (iteration ic iac nb) l w) = drag w
  /\ handlersOf (dom (fold_left (iteration ic iac nb) l w))
     = handlersOf (dom w) ++ repeat [] (List.length l)
  /\ exists added,
       trace (fold_left (iteration ic iac nb) l w) = trace w ++ added
       /\ forallb isInitEvent added = true
       /\ initialised added = [].
Proof.
  induction l as [|i r IH]; intros w; simpl.
  - rewrite app_nil_r. repeat split; auto. exists []. rewrite app_nil_r. auto.
  - destruct (IH (iteration ic iac nb w i)) as (Hs & Hd & Hg & Hh & added & Ht & Hf & Hi).
    rewrite Hs, Hd, Hg, Hh.
    unfold iteration at 4. rewrite changeActiveState_handlers.
    repeat split; auto.
    + unfold appendItem, handlersOf; simpl. rewrite map_app; simpl.
      rewrite <- app_assoc. reflexivity.
    + eexists. split; [rewrite Ht; unfold iteration, appendItem; simpl;
                       rewrite <- app_assoc; reflexivity|].
      simpl. auto.
Qed.

Lemma eachFrom_click_within m ic iac : forall (els : list Element) (i0 : nat),
  Forall (Forall (handlerWithin m)) (map clicks els) ->
  Z.of_nat (i0 + List.length els) <= m + 1 ->
  Forall (Forall (handlerWithin m))
    (map clicks (eachFrom (getSelectorFromClass ic)
                   (fun i el => click (PaginationClick ic iac i) el) i0 els)).
Proof.
  induction els as [|e r IH]; intros i0 Hall Hlen; simpl; [constructor|].
  simpl in Hall, Hlen. inversion Hall as [|? ? He Hr]; subst.
  destruct (matches (getSelectorFromClass ic) e); simpl; constructor.
  - apply Forall_app. split; [exact He|]. constructor; [simpl; lia | constructor].
  - apply IH; [exact Hr | lia].
  - exact He.
  - apply IH; [exact Hr | lia].
Qed.

Lemma paginationInit_frame ic iac nb cl w w' :
  paginationInit ic iac nb cl w = Ok w' ->
  slider w' = slider w
  /\ slides (dom w') = slides (dom w)
  /\ drag w' = drag w
  /\ exists added,
       trace w' = trace w ++ added
       /\ forallb isInitEvent added = true
       /\ initialised added = [].
Proof.
  unfold paginationInit.
  destruct (Array (slideCount (dom w) - slidesPerView (slider w) + 1)) as [len|];
    [|discriminate].
  cbn [bind]. intros H. injection H as <-.
  destruct (iterations_frame ic iac nb (indices len) w)
    as (Hs & Hd & Hg & _ & Ht).
  destruct cl; simpl; auto.
Qed.

Lemma paginationInit_within m ic iac nb cl w w' :
  paginationInit ic iac nb cl w = Ok w' ->
  pagination (dom w) = [] ->
  lastIndex w = m ->
  handlersWithin m (dom w) ->
  handlersWithin m (dom w').
Proof.
  unfold paginationInit, Array, lastIndex.
  destruct (Z.leb_spec 0 (slideCount (dom w) - slidesPerView (slider w) + 1)) as [Hn|];
    [|discriminate].
  destruct (_ <? _); [|discriminate].
  cbn [andb bind]. intros H Hp Hm Hh. injection H as <-.
  set (len := Z.to_nat (slideCount (dom w) - slidesPerView (slider w) + 1)) in *.
  destruct (iterations_frame ic iac nb (indices len) w) as (_ & _ & _ & Hhs & _).
  destruct (iterations_count ic iac nb (indices len) w) as (Hlen & _).
  unfold indices in *. rewrite length_seq in *. rewrite Hp in Hlen. simpl in Hlen.
  unfold handlersWithin in *.
  assert (Hall : Forall (Forall (handlerWithin m))
                   (handlersOf (dom (fold_left (iteration ic iac nb) (seq 0 len) w)))).
  { rewrite Hhs. apply Forall_app. split; [exact Hh|].
    apply Forall_forall. intros x Hx. apply repeat_spec in Hx. subst. constructor. }
  destruct cl; [|exact Hall].
  unfold handlersOf in *. simpl.
  inversion Hall as [|? ? H1 Hall']; subst. inversion Hall' as [|? ? H2 H3]; subst.
  constructor; [exact H1|]. constructor; [exact H2|].
  apply eachFrom_click_within; [exact H3|].
  rewrite Hlen. unfold len. lia.
Qed.

Lemma navigationInit_within m c w :
  exists w', navigationInit c w = Ok w'
    /\ slider w' = slider w
    /\ slides (dom w') = slides (dom w)
    /\ drag w' = drag w
    /\ trace w' = trace w
    /\ pagination (dom w') = pagination (dom w)
    /\ (handlersWithin m (dom w) -> handlersWithin m (dom w')).
Proof.
  unfold navigationInit. eexists; split; [reflexivity|].
  match goal with |- context [changeDisabledState c ?x] =>
    destruct (changeDisabledState_frame c x) as (Hs & Hd & Hg & Ht);
    destruct (changeDisabledState_handlers c x) as (Hh & Hp) end.
  rewrite Hs, Hd, Hg, Ht, Hp. repeat split; auto.
  unfold handlersWithin. rewrite Hh. unfold handlersOf; simpl.
  intros H. inversion H as [|? ? H1 H']; subst. inversion H' as [|? ? H2 H3]; subst.
  constructor; [|constructor; [|exact H3]];
    (apply Forall_app; split; [assumption | constructor; [exact I | constructor]]).
Qed.

Lemma initAll_frame : forall (ps : list Plugin) (k : nat) (w w' : World),
  initAll ps k w = Ok w' ->
  slider w' = slider w
  /\ slides (dom w') = slides (dom w)
  /\ drag w' = drag w
  /\ exists added,
       trace w' = trace w ++ added
       /\ forallb isInitEvent added = true
       /\ initialised added = combine (seq k (List.length ps)) ps.
Proof.
  induction ps as [|p r IH]; intros k w w' H; cbn [initAll] in H.
  - injection H as <-. repeat split; auto. exists []. rewrite app_nil_r. auto.
  - destruct (pluginInit p (emit (EvInit k p) w)) as [w1|] eqn:E; [|discriminate].
    cbn [bind] in H. destruct (IH _ _ _ H) as (Hs & Hd & Hg & added & Ht & Hf & Hi).
    assert (H1 : slider w1 = slider w /\ slides (dom w1) = slides (dom w)
                 /\ drag w1 = drag w
                 /\ exists a1, trace w1 = (trace w ++ [EvInit k p]) ++ a1
                      /\ forallb isInitEvent a1 = true /\ initialised a1 = []).
    { destruct p as [ic iac nb cl | c]; cbn [pluginInit] in E.
      - apply paginationInit_frame in E. exact E.
      - destruct (navigationInit_within 0 c (emit (EvInit k (Navigation c)) w))
          as (w2 & Hw2 & A1 & A2 & A3 & A4 & _).
        rewrite Hw2 in E. injection E as <-.
        rewrite A1, A2, A3, A4. repeat split; auto.
        exists []. rewrite app_nil_r. auto. }
    destruct H1 as (B1 & B2 & B3 & a1 & B4 & B5 & B6).
    rewrite Hs, Hd, Hg, B1, B2, B3. repeat split; auto.
    exists (EvInit k p :: a1 ++ added). split; [|split].
    + rewrite Ht, B4. rewrite <- !app_assoc. reflexivity.
    + simpl. rewrite forallb_app, B5, Hf. reflexivity.
    + simpl. rewrite initialised_app, B6, Hi. reflexivity.
Qed.



(** When [init()] returns, what it added to the trace is the wrapper's
    transform, then the [init] of every registered plugin exactly once in
    registration order (with the spans they append), then one timeout of
    [duration] milliseconds when [autoPlay] is on, and nothing else. *)
Theorem init_trace : forall w w' : World,
  init w = Ok w' ->
  exists mid : list Event,
    trace w'
    = trace w
      ++ EvTransform (TranslateNeg (restingOffset w))
         :: mid
      ++ (if autoPlay (slider w) then [EvTimeout (duration (slider w))] else [])
    /\ forallb isInitEvent mid = true
    /\ initialised mid
       = combine (seq 0 (List.length (plugins (slider w)))) (plugins (slider w)).
Proof.
  intros w w'. unfold init.
  set (w1 := emit (EvTransform (TranslateNeg (restingOffset w))) w).
  set (w2 := if draggable (slider w1) then withDrag (Some (mkDrag false 0 0)) w1 else w1).
  assert (H2 : slider w2 = slider w
               /\ trace w2 = trace w ++ [EvTransform (TranslateNeg (restingOffset w))])
    by (unfold w2, w1; simpl; destruct (draggable (slider w)); auto).
  destruct H2 as (Hs2 & Ht2).
  destruct (initAll (plugins (slider w2)) 0 w2) as [w3|] eqn:E; [|discriminate].
  cbn [bind]. intros H. injection H as <-.
  destruct (initAll_frame _ _ _ _ E) as (Hs & _ & _ & mid & Ht & Hf & Hi).
  exists mid. rewrite Hs2 in Hi. split; [|split; assumption].
  rewrite Hs, Hs2.
  destruct (autoPlay (slider w)); unfold handleAutoPlay; simpl;
    rewrite Ht, Ht2, ?Hs, ?Hs2, <- ?app_assoc; simpl; rewrite ?app_nil_r; reflexivity.
Qed.

Lemma init_trace_witness :
  let o := mkOptions 3 1 20%Q 500%Q [defaultNavigation; defaultPagination]
             true 5000%Q false "horizontal" true in
  let w := mkWorld
             (mkSlider 3 1 20%Q 500%Q 1 true 5000%Q false
                [defaultNavigation; defaultPagination] "horizontal" true)
             (sampleDom 4) None [] in
  let w' := match newSlider o (sampleDom 4) with Ok x => x | Throw _ => w end in
  newSlider o (sampleDom 4) = Ok w'
  /\ exists mid : list Event,
       trace w'
       = trace w
         ++ EvTransform (TranslateNeg (restingOffset w))
            :: mid
         ++ (if autoPlay (slider w) then [EvTimeout (duration (slider w))] else [])
       /\ forallb isInitEvent mid = true
       /\ initialised mid
          = combine (seq 0 (List.length (plugins (slider w)))) (plugins (slider w)).
Proof.
  intros o w w'.
  assert (H : init w = Ok w') by (vm_compute; reflexivity).
  split; [exact H |].
  exact (init_trace w w' H).
Defined.

Lemma initAll_within m : forall (ps : list Plugin) (k : nat) (w w' : World),
  initAll ps k w = Ok w' ->
  filter isPagination ps = []
  \/ (pagination (dom w) = [] /\ (List.length (filter isPagination ps) <= 1)%nat) ->
  lastIndex w = m ->
  handlersWithin m (dom w) ->
  handlersWithin m (dom w').
Proof.
  induction ps as [|p r IH]; intros k w w' H Hcase Hm Hh; cbn [initAll] in H.
  - injection H as <-. exact Hh.
  - destruct (pluginInit p (emit (EvInit k p) w)) as [w1|] eqn:E; [|discriminate].
    cbn [bind] in H.
    destruct p as [ic iac nb cl | c]; cbn [pluginInit] in E.
    + simpl in Hcase. destruct Hcase as [Hcase | (Hp & Hlen)]; [discriminate Hcase|].
      assert (Hr : filter isPagination r = [])
        by (destruct (filter isPagination r); [reflexivity | simpl in Hlen; lia]).
      destruct (paginationInit_frame _ _ _ _ _ _ E) as (Hs & Hd & _).
      apply (IH _ _ _ H); [left; exact Hr | |].
      * unfold lastIndex in *. rewrite Hs, (slideCount_slides _ _ Hd). exact Hm.
      * apply (paginationInit_within m _ _ _ _ _ _ E); assumption.
    + destruct (navigationInit_within m c (emit (EvInit k (Navigation c)) w))
        as (w2 & Hw2 & Hs & Hd & _ & _ & Hp & Hh2).
      rewrite Hw2 in E. injection E as <-.
      apply (IH _ _ _ H).
      * simpl in Hcase. destruct Hcase as [Hcase | (Hp0 & Hlen)];
          [left; exact Hcase | right; split; [rewrite Hp; exact Hp0 | exact Hlen]].
      * unfold lastIndex in *. rewrite Hs, (slideCount_slides _ _ Hd). exact Hm.
      * apply Hh2. exact Hh.
Qed.

(** A slider constructed over a document without markers and without
    handlers on the buttons, with at most one Pagination plugin, a
    [defaultIndex] in [[0, max(0, slideCount - slidesPerView)]] and, when
    looping, at least [slidesPerView] slides: whatever clicks, mouse events
    and timer firings follow, [currentSlide] stays in that interval. *)
Theorem constructed_slider_in_range :
  forall (o : Options) (d : Dom) (w : World) (inputs : list Input),
  newSlider o d = Ok w ->
  pagination d = [] ->
  clicks (buttonPrev d) = [] ->
  clicks (buttonNext d) = [] ->
  (List.length (filter isPagination (optPlugins o)) <= 1)%nat ->
  0 <= optDefaultIndex o <= Z.max 0 (slideCount d - optSlidesPerView o) ->
  (optLoop o = true -> optSlidesPerView o <= slideCount d) ->
  0 <= currentSlide (slider (steps inputs w))
    <= Z.max 0 (slideCount d - optSlidesPerView o).
Proof.
  intros o d w inputs H Hp Hbp Hbn Hone Hidx Hlp.
  set (m := Z.max 0 (slideCount d - optSlidesPerView o)).
  unfold newSlider, init in H.
  match type of H with bind (initAll _ 0 ?x) _ = _ => set (w2 := x) in * end.
  destruct (initAll (plugins (slider w2)) 0 w2) as [w3|] eqn:E;
    [|cbn [bind] in H; discriminate H].
  cbn [bind] in H. injection H as <-.
  assert (H2 : slider w2
               = mkSlider (optSlidesPerView o) (optDefaultIndex o) (optSpaceBetween o)
                   (optSpeed o) (optDefaultIndex o) (optAutoPlay o) (optDuration o)
                   (optLoop o) (optPlugins o) (optDirection o) (optDraggable o)
               /\ dom w2 = d)
    by (unfold w2; simpl; destruct (optDraggable o); auto).
  destruct H2 as (Hs2 & Hd2).
  destruct (initAll_frame _ _ _ _ E) as (Hs & Hd & _).
  assert (Hh : handlersWithin m (dom w3)).
  { apply (initAll_within m _ _ _ _ E).
    - right. rewrite Hs2, Hd2. simpl. auto.
    - unfold lastIndex. rewrite Hs2, Hd2. reflexivity.
    - rewrite Hd2. unfold handlersWithin, handlersOf. rewrite Hp, Hbp, Hbn. simpl.
      repeat constructor. }
  assert (Hw : within m (if autoPlay (slider w3) then handleAutoPlay w3 else w3)).
  { assert (Hw3 : within m w3).
    { unfold within, lastIndex.
      rewrite Hs, (slideCount_slides _ _ Hd), Hs2, Hd2. simpl. auto. }
    destruct (autoPlay (slider w3)); exact Hw3. }
  destruct (within_steps m inputs _ Hw) as (_ & _ & Hc & _). exact Hc.
Qed.

Lemma constructed_slider_in_range_witness :
  let o := mkOptions 3 0 20%Q 500%Q [defaultPagination; defaultNavigation]
             true 5000%Q false "horizontal" true in
  let d := sampleDom 6 in
  let w := match newSlider o d with Ok x => x | Throw _ => sampleWorld 6 3 0 false [] end in
  let inputs := [ClickMarker 3; TimerFire; ClickNext; MouseDown 10; MouseMove 400;
                 MouseUp; ClickMarker 2; ClickNext; ClickNext] in
  newSlider o d = Ok w
  /\ pagination d = []
  /\ clicks (buttonPrev d) = []
  /\ clicks (buttonNext d) = []
  /\ (List.length (filter isPagination (optPlugins o)) <= 1)%nat
  /\ 0 <= optDefaultIndex o <= Z.max 0 (slideCount d - optSlidesPerView o)
  /\ (optLoop o = true -> optSlidesPerView o <= slideCount d)
  /\ currentSlide (slider (steps inputs w)) = 3
  /\ 0 <= currentSlide (slider (steps inputs w))
       <= Z.max 0 (slideCount d - optSlidesPerView o).
Proof.
  intros o d w inputs.
  assert (H : newSlider o d = Ok w) by (vm_compute; reflexivity).
  assert (Hp : pagination d = []) by reflexivity.
  assert (Hbp : clicks (buttonPrev d) = []) by reflexivity.
  assert (Hbn : clicks (buttonNext d) = []) by reflexivity.
  assert (Hone : (List.length (filter isPagination (optPlugins o)) <= 1)%nat)
    by (simpl; apply le_n).
  assert (Hidx : 0 <= optDefaultIndex o <= Z.max 0 (slideCount d - optSlidesPerView o))
    by (vm_compute; split; discriminate).
  assert (Hlp : optLoop o = true -> optSlidesPerView o <= slideCount d)
    by (intros Hf; discriminate Hf).
  repeat (split; [assumption|]).
  split; [vm_compute; reflexivity |].
  exact (constructed_slider_in_range o d w inputs H Hp Hbp Hbn Hone Hidx Hlp).
Defined.

(** Why "at most one Pagination plugin": two of them with the same classes
    share their markers, the second [init] binds handlers up to index 7 on
    the eight markers, and a click on the last one moves the index beyond
    [slideCount - slidesPerView = 3]. *)
Example two_paginations_out_of_range :
  match newSlider (mkOptions 3 0 20%Q 500%Q [defaultPagination; defaultPagination]
                     false 5000%Q false "horizontal" true) (sampleDom 6) with
  | Ok w =>
      List.length (pagination (dom w)) = 8%nat
      /\ currentSlide (slider (step (ClickMarker 7) w)) = 7
  | Throw _ => False
  end.
Proof. vm_compute. split; reflexivity. Qed.

(** ** Clicks on markers *)

(** The click handler that [Pagination.init] binds to the marker of index
    [i]: it moves the index to [i] through the change protocol, turns
    [autoPlay] off and changes no other field, so that a timer firing after
    it does nothing. *)
Theorem paginationClick_spec : forall (itemClass itemActiveClass : string) (i : nat)
                                      (w : World),
  let w' := runHandler (PaginationClick itemClass itemActiveClass i) w in
  currentSlide (slider w') = Z.of_nat i
  /\ autoPlay (slider w') = false
  /\ config (slider w') = config (slider w)
  /\ trace w' = trace w ++ protocolEvents (Z.of_nat i) w
  /\ autoPlayFire w' = w'.
Proof.
  intros ic a i w w'.
  destruct (stable_runHandler (PaginationClick ic a i) w) as (Hc & _).
  fold w' in Hc.
  destruct (changeSlide_spec (Z.of_nat i) w) as (Hs & _ & _ & Ht).
  assert (Hcur : currentSlide (slider w') = Z.of_nat i
                 /\ autoPlay (slider w') = false
                 /\ trace w' = trace w ++ protocolEvents (Z.of_nat i) w).
  { unfold w'. simpl.
    destruct (autoPlay (slider (changeSlide (Z.of_nat i) w))) eqn:Ea; simpl;
      rewrite ?Ea, Hs, Ht; auto. }
  destruct Hcur as (H1 & H2 & H3).
  repeat split; auto.
  unfold autoPlayFire. now rewrite H2.
Qed.






(** ** Dragging, continued *)

Lemma init_frame_drag w w' :
  init w = Ok w' ->
  drag w' = (if draggable (slider w) then Some (mkDrag false 0 0) else drag w).
Proof.
  unfold init.
  set (w1 := emit (EvTransform (TranslateNeg (restingOffset w))) w).
  set (w2 := if draggable (slider w1) then withDrag (Some (mkDrag false 0 0)) w1 else w1).
  assert (Hg2 : drag w2 = (if draggable (slider w) then Some (mkDrag false 0 0)
                           else drag w))
    by (unfold w2, w1; simpl; destruct (draggable (slider w)); auto).
  destruct (initAll (plugins (slider w2)) 0 w2) as [w3|] eqn:E; [|discriminate].
  cbn [bind]. intros H. injection H as <-.
  destruct (initAll_frame _ _ _ _ E) as (_ & _ & Hg & _).
  destruct (autoPlay (slider w3)); simpl; congruence.
Qed.

Lemma init_unbound_drag w w' :
  init w = Ok w' -> draggable (slider w) = false -> drag w = None -> drag w' = None.
Proof.
  intros H Hd Hg. pose proof (init_frame_drag w w' H) as Hf.
  rewrite Hd in Hf. congruence.
Qed.

Lemma step_mouse_unbound i w : drag w = None -> isMouse i = true -> step i w = w.
Proof.
  intros Hg Hi. destruct i; try discriminate Hi; simpl;
    unfold mousedown, mousemove, mouseup; now rewrite Hg.
Qed.

(** A slider constructed with [draggable = false] ignores every mouse event:
    no sequence of [mousedown], [mousemove] and [mouseup] changes anything. *)
Theorem not_draggable_ignores_mouse :
  forall (o : Options) (d : Dom) (w : World) (inputs : list Input),
  newSlider o d = Ok w ->
  optDraggable o = false ->
  forallb isMouse inputs = true ->
  steps inputs w = w.
Proof.
  intros o d w inputs H Hd Hm.
  assert (Hg : drag w = None).
  { pose proof (init_unbound_drag
                  (mkWorld
                     (mkSlider (optSlidesPerView o) (optDefaultIndex o) (optSpaceBetween o)
                        (optSpeed o) (optDefaultIndex o) (optAutoPlay o) (optDuration o)
                        (optLoop o) (optPlugins o) (optDirection o) (optDraggable o))
                     d None []) w H) as Hi.
    apply Hi; [exact Hd | reflexivity]. }
  revert Hm. induction inputs as [|i r IH]; intros Hm; simpl; [reflexivity|].
  simpl in Hm. apply andb_true_iff in Hm. destruct Hm as (Hi & Hr).
  rewrite (step_mouse_unbound i w Hg Hi). apply IH. exact Hr.
Qed.

Lemma not_draggable_ignores_mouse_witness :
  let o := mkOptions 3 0 20%Q 500%Q [defaultPagination] false 5000%Q true
             "horizontal" false in
  let d := sampleDom 6 in
  let w := match newSlider o d with Ok x => x | Throw _ => sampleWorld 6 3 0 false [] end in
  let inputs := [MouseDown 500; MouseMove 20; MouseUp] in
  newSlider o d = Ok w
  /\ optDraggable o = false
  /\ forallb isMouse inputs = true
  /\ steps inputs w = w.
Proof.
  intros o d w inputs.
  assert (H : newSlider o d = Ok w) by (vm_compute; reflexivity).
  assert (Hd : optDraggable o = false) by reflexivity.
  assert (Hm : forallb isMouse inputs = true) by reflexivity.
  repeat (split; [assumption|]).
  exact (not_draggable_ignores_mouse o d w inputs H Hd Hm).
Defined.

(** A whole drag with bound handlers and at least one slide: press at [x0],
    move to [x1], release.  Whatever the drag variables held before, the
    index goes forward when [x0 - x1 > width / 3] and a next index exists,
    else backward when [x1 - x0 > width / 3] and a previous index exists,
    else it stays; afterwards the button is up and [startPos] and [distance]
    are [0]. *)
Theorem gesture_spec : forall (x0 x1 width : Q) (g : Drag) (w : World),
  drag w = Some g ->
  outerWidth (dom w) = Some width ->
  let c := currentSlide (slider w) in
  let bound := slideCount (dom w) - slidesPerView (slider w) in
  currentSlide (slider (gesture x0 x1 w))
  = (if negb (Qle_bool (x0 - x1) (width / 3)) && (loop (slider w) || (c <? bound))
     then (if c <? bound then c + 1 else 0)
     else if negb (Qle_bool (- (x0 - x1)) (width / 3)) && (loop (slider w) || (c >? 0))
     then (if c >? 0 then c - 1 else bound)
     else c)
  /\ drag (gesture x0 x1 w) = Some (mkDrag false 0 0).
Proof.
  intros x0 x1 width g w Hg Hw c bound.
  unfold gesture, mousedown. rewrite Hg.
  unfold mousemove. cbn [drag withDrag isPressed negb startPos].
  unfold mouseup. cbn [drag emit withDrag].
  set (g' := mkDrag true x0 (x0 - x1)%Q).
  match goal with |- context [releaseDecision ?x g'] => set (w1 := x) end.
  assert (H1 : slider w1 = slider w /\ dom w1 = dom w) by (split; reflexivity).
  destruct H1 as (Hs1 & Hd1).
  assert (Hdec : releaseDecision w1 g' = releaseDecision w g')
    by (unfold releaseDecision, beforeLast; rewrite Hs1, Hd1; reflexivity).
  rewrite Hdec. split; [|reflexivity]. cbn [slider withDrag].
  assert (Hn : currentSlide (slider (nextSlide w1)) = nextIndex w)
    by (rewrite nextSlide_changeSlide, currentSlide_changeSlide;
        unfold nextIndex; rewrite Hs1, Hd1; reflexivity).
  assert (Hp : currentSlide (slider (previousSlide w1)) = previousIndex w)
    by (rewrite previousSlide_changeSlide, currentSlide_changeSlide;
        unfold previousIndex; rewrite Hs1, Hd1; reflexivity).
  unfold releaseDecision, beforeLast. rewrite Hw. cbn [px_div px_lift2 px_gt distance g'].
  fold c. fold bound.
  destruct (negb (Qle_bool (x0 - x1) (width / 3)) && (loop (slider w) || (c <? bound)))
    eqn:E1.
  - rewrite Hn. unfold nextIndex. fold c. fold bound.
    destruct (c <? bound); [reflexivity|].
    rewrite orb_false_r in E1. apply andb_true_iff in E1. destruct E1 as (_ & ->).
    reflexivity.
  - destruct (negb (Qle_bool (- (x0 - x1)) (width / 3)) && (loop (slider w) || (c >? 0)))
      eqn:E2.
    + rewrite Hp. unfold previousIndex. fold c. fold bound.
      destruct (c >? 0); [reflexivity|].
      rewrite orb_false_r in E2. apply andb_true_iff in E2. destruct E2 as (_ & ->).
      reflexivity.
    + reflexivity.
Qed.

Lemma gesture_spec_witness :
  let w := sampleWorld 6 3 2 false [defaultPagination; defaultNavigation] in
  let g := mkDrag false 0 0 in
  drag w = Some g
  /\ outerWidth (dom w) = Some 300%Q
  /\ currentSlide (slider (gesture 100 250 w)) = 1
  /\ drag (gesture 100 250 w) = Some (mkDrag false 0 0).
Proof.
  intros w g.
  assert (Hg : drag w = Some g) by reflexivity.
  assert (Hw : outerWidth (dom w) = Some 300%Q) by reflexivity.
  split; [exact Hg | split; [exact Hw |]].
  exact (gesture_spec 100 250 300 g w Hg Hw).
Defined.

(** Without slides [outerWidth()] is undefined and both comparisons of the
    [mouseup] handler are false: no release navigates, even when looping;
    the handler only writes the transform (with a [NaN] offset). *)
Theorem mouseup_without_slides : forall w : World,
  slides (dom w) = [] ->
  currentSlide (slider (mouseup w)) = currentSlide (slider w)
  /\ trace (mouseup w)
     = trace w ++ match drag w with
                  | Some _ => [EvTransform (TranslateNeg None)]
                  | None => []
                  end.
Proof.
  intros w Hs. unfold mouseup.
  destruct (drag w) as [g|]; [|rewrite app_nil_r; auto].
  unfold releaseDecision, restingOffset, outerWidth. rewrite Hs. simpl. auto.
Qed.

Lemma mouseup_without_slides_witness :
  let w := withDrag (Some (mkDrag true 900 800)) (sampleWorld 0 3 0 true []) in
  slides (dom w) = []
  /\ currentSlide (slider (mouseup w)) = currentSlide (slider w)
  /\ trace (mouseup w)
     = trace w ++ match drag w with
                  | Some _ => [EvTransform (TranslateNeg None)]
                  | None => []
                  end.
Proof.
  intros w.
  assert (Hs : slides (dom w) = []) by reflexivity.
  split; [exact Hs |].
  exact (mouseup_without_slides w Hs).
Defined.

Lemma drag_runHandler h w : drag (runHandler h w) = drag w.
Proof.
  destruct h as [ic a i | |]; simpl.
  - destruct (changeSlide_spec (Z.of_nat i) w) as (_ & _ & Hg & _).
    match goal with |- context [if ?b then _ else _] => destruct b end; simpl; exact Hg.
  - rewrite nextSlide_changeSlide.
    now destruct (changeSlide_spec (nextIndex w) w) as (_ & _ & Hg & _).
  - rewrite previousSlide_changeSlide.
    now destruct (changeSlide_spec (previousIndex w) w) as (_ & _ & Hg & _).
Qed.

Lemma drag_runHandlers : forall hs w, drag (runHandlers hs w) = drag w.
Proof.
  induction hs as [|h r IH]; intros w; simpl; [reflexivity|].
  unfold runHandlers in IH. now rewrite IH, drag_runHandler.
Qed.

Lemma drag_autoPlayFire w : drag (autoPlayFire w) = drag w.
Proof.
  unfold autoPlayFire, handleAutoPlay. destruct (autoPlay (slider w)); [|reflexivity].
  simpl. destruct (beforeLast w).
  - rewrite nextSlide_changeSlide.
    now destruct (changeSlide_spec (nextIndex w) w) as (_ & _ & Hg & _).
  - now destruct (changeSlide_spec 0 w) as (_ & _ & Hg & _).
Qed.

Lemma dragSettled_step i w : dragSettled w -> dragSettled (step i w).
Proof.
  unfold dragSettled. intros Hw. destruct i; simpl.
  - destruct (nth_error (pagination (dom w)) k); [|exact Hw].
    now rewrite drag_runHandlers.
  - now rewrite drag_runHandlers.
  - now rewrite drag_runHandlers.
  - unfold mousedown. destruct (drag w) as [g|] eqn:E; [|now rewrite E].
    simpl. intros H; discriminate H.
  - unfold mousemove. destruct (drag w) as [g|] eqn:E; [|now rewrite E].
    destruct (isPressed g) eqn:Ep; simpl; [|rewrite E, Ep; exact Hw].
    rewrite ?Ep. intros H; discriminate H.
  - unfold mouseup. destruct (drag w) as [g|] eqn:E; [|now rewrite E].
    simpl. auto.
  - now rewrite drag_autoPlayFire.
Qed.

Lemma dragSettled_steps : forall inputs w, dragSettled w -> dragSettled (steps inputs w).
Proof.
  induction inputs as [|i r IH]; intros w Hw; simpl; [exact Hw|].
  apply IH. now apply dragSettled_step.
Qed.

Lemma snap_at_zero (w : World) (x : Q) :
  Forall (fun q => (0 <= q)%Q) (slides (dom w)) ->
  releaseDecision w (mkDrag true x 0) = SnapBack.
Proof.
  intros Hpos. unfold releaseDecision, outerWidth.
  destruct (slides (dom w)) as [|q r]; simpl; [reflexivity|].
  inversion Hpos as [|? ? Hq _]; subst.
  assert (Hle : Qle_bool 0 (q / 3) = true)
    by (apply Qle_bool_iff; apply third_nonneg; exact Hq).
  change (- 0)%Q with 0%Q. rewrite Hle. reflexivity.
Qed.

(** The drag variables are reset by every release, so a press and a release
    without a move in between never navigate: after any sequence of inputs
    that starts with the drag variables at rest and ends with the button up,
    [mousedown] followed by [mouseup] leaves [currentSlide] as it is (slide
    widths are not negative). *)
Theorem press_release_without_move :
  forall (inputs : list Input) (x : Q) (w0 : World),
  dragSettled w0 ->
  Forall (fun q => (0 <= q)%Q) (slides (dom w0)) ->
  pressed (steps inputs w0) = false ->
  currentSlide (slider (mouseup (mousedown x (steps inputs w0))))
  = currentSlide (slider (steps inputs w0)).
Proof.
  intros inputs x w0 Hset Hpos Hup.
  pose proof (dragSettled_steps inputs w0 Hset) as Hw.
  destruct (stable_steps inputs w0) as (_ & Hsl & _).
  set (w := steps inputs w0) in *.
  rewrite <- Hsl in Hpos.
  unfold dragSettled, pressed in *.
  unfold mousedown. destruct (drag w) as [g|] eqn:E.
  - destruct (Hw Hup) as (_ & Hd). rewrite Hd.
    unfold mouseup. cbn [drag withDrag].
    assert (Hdec : releaseDecision (withDrag (Some (mkDrag true x 0)) w)
                     (mkDrag true x 0) = SnapBack)
      by (apply snap_at_zero; exact Hpos).
    rewrite Hdec. reflexivity.
  - unfold mouseup. rewrite E. reflexivity.
Qed.

Lemma press_release_without_move_witness :
  let w0 := sampleWorld 6 3 1 true [defaultPagination; defaultNavigation] in
  let inputs := [MouseDown 500; MouseMove 100; MouseUp; TimerFire; ClickNext] in
  dragSettled w0
  /\ Forall (fun q => (0 <= q)%Q) (slides (dom w0))
  /\ pressed (steps inputs w0) = false
  /\ currentSlide (slider (steps inputs w0)) = 2
  /\ currentSlide (slider (mouseup (mousedown 42 (steps inputs w0))))
     = currentSlide (slider (steps inputs w0)).
Proof.
  intros w0 inputs.
  assert (Hset : dragSettled w0) by (intros _; split; reflexivity).
  assert (Hpos : Forall (fun q => (0 <= q)%Q) (slides (dom w0)))
    by (repeat constructor; vm_compute; discriminate).
  assert (Hup : pressed (steps inputs w0) = false) by (vm_compute; reflexivity).
  split; [exact Hset | split; [exact Hpos | split; [exact Hup |]]].
  split; [vm_compute; reflexivity |].
  exact (press_release_without_move inputs 42 w0 Hset Hpos Hup).
Defined.

(** ** Auto-play, continued *)

Lemma autoPlayFire_on w :
  autoPlay (slider w) = true ->
  slider (autoPlayFire w)
  = setCurrentSlide
      (if currentSlide (slider w) <? slideCount (dom w) - slidesPerView (slider w)
       then currentSlide (slider w) + 1 else 0)
      (slider w)
  /\ slides (dom (autoPlayFire w)) = slides (dom w)
  /\ timeouts (trace (autoPlayFire w)) = S (timeouts (trace w)).
Proof.
  intros Ha. unfold autoPlayFire, handleAutoPlay, beforeLast. rewrite Ha.
  cbn [slider dom trace emit].
  destruct (currentSlide (slider w) <? slideCount (dom w) - slidesPerView (slider w))
    eqn:E.
  - rewrite nextSlide_changeSlide.
    destruct (changeSlide_spec (nextIndex w) w) as (Hs & Hd & _ & Ht).
    rewrite Hs, Hd, Ht. unfold nextIndex. rewrite E.
    rewrite !timeouts_app, timeouts_protocolEvents. simpl. repeat split; auto. lia.
  - destruct (changeSlide_spec 0 w) as (Hs & Hd & _ & Ht).
    rewrite Hs, Hd, Ht.
    rewrite !timeouts_app, timeouts_protocolEvents. simpl. repeat split; auto. lia.
Qed.

(** With [autoPlay] on, the timer walks through all resting indices and
    starts again at [0], whether [loop] is set or not: from an index in
    [[0, slideCount - slidesPerView]], [k] firings give
    [(currentSlide + k) mod (slideCount - slidesPerView + 1)], arm [k]
    timeouts and leave [autoPlay] on. *)
Theorem autoPlay_cycles : forall (k : nat) (w : World),
  autoPlay (slider w) = true ->
  0 <= currentSlide (slider w) <= slideCount (dom w) - slidesPerView (slider w) ->
  currentSlide (slider (steps (repeat TimerFire k) w))
  = (currentSlide (slider w) + Z.of_nat k)
      mod (slideCount (dom w) - slidesPerView (slider w) + 1)
  /\ timeouts (trace (steps (repeat TimerFire k) w)) = (timeouts (trace w) + k)%nat
  /\ autoPlay (slider (steps (repeat TimerFire k) w)) = true.
Proof.
  induction k as [|k IH]; intros w Ha Hr.
  - simpl. rewrite Z.add_0_r, Z.mod_small by lia. repeat split; auto.
  - change (steps (repeat TimerFire (S k)) w)
      with (steps (repeat TimerFire k) (autoPlayFire w)).
    destruct (autoPlayFire_on w Ha) as (Hs & Hd & Ht).
    set (M := slideCount (dom w) - slidesPerView (slider w) + 1) in *.
    assert (HM : 0 < M) by (unfold M; lia).
    assert (Hi : currentSlide (slider (autoPlayFire w))
                 = (currentSlide (slider w) + 1) mod M).
    { rewrite Hs. simpl.
      destruct (Z.ltb_spec (currentSlide (slider w))
                  (slideCount (dom w) - slidesPerView (slider w))).
      - rewrite Z.mod_small; unfold M; lia.
      - replace (currentSlide (slider w) + 1) with M by (unfold M; lia).
        now rewrite Z_mod_same_full. }
    assert (Hv : slideCount (dom (autoPlayFire w)) - slidesPerView (slider (autoPlayFire w)) + 1
                 = M)
      by (rewrite (slideCount_slides _ _ Hd), Hs; reflexivity).
    pose proof (Z.mod_pos_bound (currentSlide (slider w) + 1) M HM) as Hb.
    destruct (IH (autoPlayFire w)) as (H1 & H2 & H3).
    + rewrite Hs. destruct (slider w); simpl in *; assumption.
    + rewrite Hi. lia.
    + rewrite H1, H2, H3, Hv, Hi, Ht. rewrite Zplus_mod_idemp_l.
      split; [f_equal; lia | split; [lia | reflexivity]].
Qed.

Lemma autoPlay_cycles_witness :
  let w := withSlider (setAutoPlay true)
             (sampleWorld 6 3 2 false [defaultPagination; defaultNavigation]) in
  autoPlay (slider w) = true
  /\ 0 <= currentSlide (slider w) <= slideCount (dom w) - slidesPerView (slider w)
  /\ currentSlide (slider (steps (repeat TimerFire 3) w)) = 1
  /\ currentSlide (slider (steps (repeat TimerFire 3) w))
     = (currentSlide (slider w) + Z.of_nat 3)
         mod (slideCount (dom w) - slidesPerView (slider w) + 1).
Proof.
  intros w.
  assert (Ha : autoPlay (slider w) = true) by reflexivity.
  assert (Hr : 0 <= currentSlide (slider w)
               <= slideCount (dom w) - slidesPerView (slider w))
    by (vm_compute; split; discriminate).
  split; [exact Ha | split; [exact Hr | split; [vm_compute; reflexivity |]]].
  exact (proj1 (autoPlay_cycles 3 w Ha Hr)).
Defined.

(** ** Clicks on the navigation buttons *)

Lemma paginationInit_buttons ic iac nb cl w w' :
  paginationInit ic iac nb cl w = Ok w' ->
  clicks (buttonPrev (dom w')) = clicks (buttonPrev (dom w))
  /\ clicks (buttonNext (dom w')) = clicks (buttonNext (dom w)).
Proof.
  unfold paginationInit.
  destruct (Array (slideCount (dom w) - slidesPerView (slider w) + 1)) as [len|];
    [|discriminate].
  cbn [bind]. intros H. injection H as <-.
  destruct (iterations_frame ic iac nb (indices len) w) as (_ & _ & _ & Hh & _).
  unfold handlersOf in Hh. simpl in Hh. injection Hh as H1 H2 _.
  destruct cl; simpl; auto.
Qed.

Lemma initAll_buttons : forall (ps : list Plugin) (k : nat) (w w' : World),
  initAll ps k w = Ok w' ->
  clicks (buttonPrev (dom w'))
  = clicks (buttonPrev (dom w)) ++ repeat NavigationPrevClick (navigationCount ps)
  /\ clicks (buttonNext (dom w'))
     = clicks (buttonNext (dom w)) ++ repeat NavigationNextClick (navigationCount ps).
Proof.
  unfold navigationCount.
  induction ps as [|p r IH]; intros k w w' H; cbn [initAll] in H.
  - injection H as <-. simpl. now rewrite !app_nil_r.
  - destruct (pluginInit p (emit (EvInit k p) w)) as [w1|] eqn:E; [|discriminate].
    cbn [bind] in H. destruct (IH _ _ _ H) as (Hp & Hn). rewrite Hp, Hn.
    destruct p as [ic iac nb cl | c]; cbn [pluginInit] in E; simpl.
    + destruct (paginationInit_buttons _ _ _ _ _ _ E) as (-> & ->). auto.
    + unfold navigationInit in E. injection E as <-.
      match goal with |- context [changeDisabledState c ?x] =>
        destruct (changeDisabledState_handlers c x) as (Hh & _) end.
      unfold handlersOf in Hh. injection Hh as H1 H2 _.
      rewrite H1, H2. simpl. rewrite <- !app_assoc. auto.
Qed.

Lemma runHandlers_next : forall j w,
  runHandlers (repeat NavigationNextClick j) w = run (repeat Next j) w.
Proof. induction j as [|j IH]; intros w; simpl; [reflexivity | apply IH]. Qed.

Lemma runHandlers_previous : forall j w,
  runHandlers (repeat NavigationPrevClick j) w = run (repeat Previous j) w.
Proof. induction j as [|j IH]; intros w; simpl; [reflexivity | apply IH]. Qed.

(** Every registered Navigation plugin binds its own handlers: on a slider
    constructed over buttons without handlers, one click on the next
    (previous) button calls [nextSlide()] ([previousSlide()]) once per
    Navigation plugin in the plugin list, at any later time. *)
Theorem navigation_click_calls :
  forall (o : Options) (d : Dom) (w : World) (inputs : list Input),
  newSlider o d = Ok w ->
  clicks (buttonPrev d) = [] ->
  clicks (buttonNext d) = [] ->
  step ClickNext (steps inputs w)
  = run (repeat Next (navigationCount (optPlugins o))) (steps inputs w)
  /\ step ClickPrevious (steps inputs w)
     = run (repeat Previous (navigationCount (optPlugins o))) (steps inputs w).
Proof.
  intros o d w inputs H Hbp Hbn.
  assert (Hb : clicks (buttonPrev (dom w))
               = repeat NavigationPrevClick (navigationCount (optPlugins o))
               /\ clicks (buttonNext (dom w))
                  = repeat NavigationNextClick (navigationCount (optPlugins o))).
  { unfold newSlider, init in H.
    match type of H with bind (initAll _ 0 ?x) _ = _ => set (w2 := x) in * end.
    destruct (initAll (plugins (slider w2)) 0 w2) as [w3|] eqn:E;
      [|cbn [bind] in H; discriminate H].
    cbn [bind] in H. injection H as <-.
    destruct (initAll_buttons _ _ _ _ E) as (Hp & Hn).
    assert (H2 : plugins (slider w2) = optPlugins o /\ dom w2 = d)
      by (unfold w2; simpl; destruct (optDraggable o); auto).
    destruct H2 as (Hps & Hd2). rewrite Hps, Hd2, Hbp, Hbn in *. simpl in Hp, Hn.
    destruct (autoPlay (slider w3)); simpl; auto. }
  destruct (stable_steps inputs w) as (_ & _ & Hh & _).
  unfold handlersOf in Hh. injection Hh as H1 H2 _.
  destruct Hb as (Hp & Hn).
  cbn [step]. rewrite H1, H2, Hp, Hn.
  split; [apply runHandlers_next | apply runHandlers_previous].
Qed.

Lemma navigation_click_calls_witness :
  let o := mkOptions 3 0 20%Q 500%Q [defaultNavigation; defaultPagination; defaultNavigation]
             false 5000%Q false "horizontal" true in
  let d := sampleDom 6 in
  let w := match newSlider o d with Ok x => x | Throw _ => sampleWorld 6 3 0 false [] end in
  newSlider o d = Ok w
  /\ clicks (buttonPrev d) = []
  /\ clicks (buttonNext d) = []
  /\ currentSlide (slider (step ClickNext (steps [ClickMarker 1] w))) = 3
  /\ step ClickNext (steps [ClickMarker 1] w)
     = run (repeat Next (navigationCount (optPlugins o))) (steps [ClickMarker 1] w).
Proof.
  intros o d w.
  assert (H : newSlider o d = Ok w) by (vm_compute; reflexivity).
  assert (Hbp : clicks (buttonPrev d) = []) by reflexivity.
  assert (Hbn : clicks (buttonNext d) = []) by reflexivity.
  repeat (split; [assumption|]).
  split; [vm_compute; reflexivity |].
  exact (proj1 (navigation_click_calls o d w [ClickMarker 1] H Hbp Hbn)).
Defined.
